(** * The Redis output of libbeat: a shallow embedding and its properties

    The Go source models an event-shipping output plugin.  Its state is the
    [RedisOutput] struct; its operations are [Init], [RedisConnect],
    [Connect], [Reconnect], [SendMessagesGoroutine], [GetNameByIP],
    [PublishIPs] and [UpdateLocalTopologyMap].

    Conventions of the embedding:
    - Go [int] and [time.Duration] are 64-bit signed integers, carried as [Z]
      with the wrap-around of the arithmetic written out ([wrap64]);
    - Go strings are byte strings ([String.string]);
    - [map[string]string] is [gmap string string];
    - an [error] is its message; a result with an error is [result];
    - the remote server is an oracle: a connection answers each command, a
      dial yields a connection or an error;
    - every function returns, next to its value, the list of effects it
      performed on the outside world, in program order.  Log lines are not
      effects of the model. *)

From Stdlib Require Import ZArith List Ascii String DecimalString Lia Bool.
From Stdlib.Strings Require Byte.
From stdpp Require Import base option list strings gmap.

Abbreviation byte := Byte.byte.

Local Open Scope string_scope.
Local Open Scope list_scope.
Local Open Scope Z_scope.

(** ** Machine integers and durations *)

Definition wrap64 (z : Z) : Z := (z + 2 ^ 63) mod 2 ^ 64 - 2 ^ 63.

Definition int64_min : Z := - 2 ^ 63.
Definition int64_max : Z := 2 ^ 63 - 1.

Definition in_int64 (z : Z) : Prop := int64_min <= z <= int64_max.

(** [time.Duration] counts nanoseconds. *)
Definition Millisecond : Z := 1000000.
Definition Second : Z := 1000000000.

(** [time.Duration(n) * unit] *)
Definition duration_mul (n unit : Z) : Z := wrap64 (n * unit).

(** [int(d.Seconds())].  [Seconds] is [float64(d / Second) +
    float64(d % Second) / 1e9]; on a whole number of seconds the fraction is
    zero and the integral part, below 2^53, is exact, so the conversion
    back gives the quotient.  The quotient truncates toward zero as Go's
    does. *)
Definition duration_seconds_int (d : Z) : Z := Z.quot d Second.

(** ** Strings: [strings.Split] and [strings.Join] with a one-byte separator *)

Definition comma : ascii := ","%char.

Fixpoint split_on (c : ascii) (s : string) : list string :=
  match s with
  | EmptyString => [EmptyString]
  | String a s' =>
      if Ascii.eqb a c then EmptyString :: split_on c s'
      else match split_on c s' with
           | [] => [String a EmptyString]
           | f :: fs => String a f :: fs
           end
  end.

(** [strings.Split(s, ",")] *)
Definition strings_Split_comma (s : string) : list string := split_on comma s.

(** [strings.Join(l, ",")] *)
Definition strings_Join_comma (l : list string) : string := String.concat "," l.

(** ** Errors and results *)

Definition error : Type := string.

Inductive result (A : Type) : Type :=
| Ok (a : A)
| Fail (e : error).
Arguments Ok {A} a.
Arguments Fail {A} e.

Definition is_ok {A} (r : result A) : bool :=
  match r with Ok _ => true | Fail _ => false end.

(** ** The Redis connection *)

Inductive Command : Type :=
| AUTH (password : string)
| PING
| SELECT (db : Z)
| HSET (key field value : string)
| EXPIRE (key : string) (seconds : Z)
| KEYS (pattern : string)
| HGET (key field : string)
| RPUSH (key value : string)
| PUBLISH (channel value : string).

Inductive Reply : Type :=
| RStatus
| RInt (n : Z)
| RText (s : string)
| RList (l : list string).

(** A connection is identified by [conn_id]; [conn_do] is the server's answer
    to a command sent with [Do]. *)
Record Conn : Type := MkConn {
  conn_id : nat;
  conn_do : Command -> result Reply;
}.

(** [redis.Strings(reply, err)] and [redis.String(reply, err)]: the error is
    passed on, a reply of another shape is an error. *)
Definition redis_Strings (r : result Reply) : result (list string) :=
  match r with
  | Fail e => Fail e
  | Ok (RList l) => Ok l
  | Ok _ => Fail "redigo: unexpected type for Strings"
  end.

Definition redis_String (r : result Reply) : result string :=
  match r with
  | Fail e => Fail e
  | Ok (RText s) => Ok s
  | Ok _ => Fail "redigo: unexpected type for String"
  end.

(** ** Effects *)

Inductive Goroutine : Type :=
| GoReconnect
| GoSendMessages.

Inductive Effect : Type :=
| EDial (hostname : string) (timeout : Z)
| EDo (c : nat) (cmd : Command)
| ESend (c : nat) (cmd : Command)
| EFlush (c : nat)
| EReceive (c : nat)
| EClose (c : nat)
| ESleep (d : Z)
| EGo (g : Goroutine).

Definition trace : Type := list Effect.

(** ** The output's state *)

Inductive RedisDataType : Type :=
| RedisListType
| RedisChannelType.

Record RedisQueueMsg : Type := MkMsg {
  index : string;
  msg : string;
}.

(** A buffered channel: capacity and content. *)
Record Chan : Type := MkChan {
  chan_cap : nat;
  chan_buf : list RedisQueueMsg;
}.

Record RedisOutput : Type := MkRedisOutput {
  Index : string;
  RConn : option Conn;
  TopologyExpire : Z;
  ReconnectInterval : Z;
  Hostname : string;
  Password : string;
  Db : Z;
  DbTopology : Z;
  Timeout : Z;
  DataType : RedisDataType;
  FlushInterval : Z;
  flush_immediatelly : bool;
  TopologyMap : gmap string string;
  sendingQueue : option Chan;
  connected : bool;
}.

(** The zero value of the struct. *)
Definition zero_RedisOutput : RedisOutput :=
  {| Index := ""; RConn := None; TopologyExpire := 0; ReconnectInterval := 0;
     Hostname := ""; Password := ""; Db := 0; DbTopology := 0; Timeout := 0;
     DataType := RedisListType; FlushInterval := 0;
     flush_immediatelly := false; TopologyMap := ∅; sendingQueue := None;
     connected := false |}.

Definition set_TopologyMap (out : RedisOutput) (m : gmap string string)
  : RedisOutput :=
  {| Index := Index out; RConn := RConn out;
     TopologyExpire := TopologyExpire out;
     ReconnectInterval := ReconnectInterval out; Hostname := Hostname out;
     Password := Password out; Db := Db out; DbTopology := DbTopology out;
     Timeout := Timeout out; DataType := DataType out;
     FlushInterval := FlushInterval out;
     flush_immediatelly := flush_immediatelly out; TopologyMap := m;
     sendingQueue := sendingQueue out; connected := connected out |}.

Definition set_Conn (out : RedisOutput) (c : option Conn) : RedisOutput :=
  {| Index := Index out; RConn := c;
     TopologyExpire := TopologyExpire out;
     ReconnectInterval := ReconnectInterval out; Hostname := Hostname out;
     Password := Password out; Db := Db out; DbTopology := DbTopology out;
     Timeout := Timeout out; DataType := DataType out;
     FlushInterval := FlushInterval out;
     flush_immediatelly := flush_immediatelly out;
     TopologyMap := TopologyMap out;
     sendingQueue := sendingQueue out; connected := connected out |}.

Definition set_connected (out : RedisOutput) (b : bool) : RedisOutput :=
  {| Index := Index out; RConn := RConn out;
     TopologyExpire := TopologyExpire out;
     ReconnectInterval := ReconnectInterval out; Hostname := Hostname out;
     Password := Password out; Db := Db out; DbTopology := DbTopology out;
     Timeout := Timeout out; DataType := DataType out;
     FlushInterval := FlushInterval out;
     flush_immediatelly := flush_immediatelly out;
     TopologyMap := TopologyMap out;
     sendingQueue := sendingQueue out; connected := b |}.

(** ** Topology: [GetNameByIP] and [UpdateLocalTopologyMap] *)

Definition GetNameByIP (out : RedisOutput) (ip : string) : string :=
  match TopologyMap out !! ip with
  | None => ""
  | Some name => name
  end.

(** The inner loop: [for _, addr := range ipaddrs { tmp[addr] = hostname }]. *)
Fixpoint assign_addrs (hostname : string) (ipaddrs : list string)
  (tmp : gmap string string) : gmap string string :=
  match ipaddrs with
  | [] => tmp
  | addr :: rest => assign_addrs hostname rest (<[addr := hostname]> tmp)
  end.

(** The outer loop over [hostnames]; a failed [HGET] is logged and the loop
    goes on. *)
Fixpoint scan_hostnames (conn : Conn) (hostnames : list string)
  (tmp : gmap string string) : gmap string string * trace :=
  match hostnames with
  | [] => (tmp, [])
  | hostname :: rest =>
      let cmd := HGET hostname "ipaddrs" in
      let tmp' :=
        match redis_String (conn_do conn cmd) with
        | Fail _ => tmp
        | Ok res => assign_addrs hostname (strings_Split_comma res) tmp
        end in
      let '(m, tr) := scan_hostnames conn rest tmp' in
      (m, EDo (conn_id conn) cmd :: tr)
  end.

Definition UpdateLocalTopologyMap (out : RedisOutput) (conn : Conn)
  : RedisOutput * trace :=
  let TopologyMapTmp : gmap string string := ∅ in
  match redis_Strings (conn_do conn (KEYS "*")) with
  | Fail _ => (out, [EDo (conn_id conn) (KEYS "*")])
  | Ok hostnames =>
      let '(m, tr) := scan_hostnames conn hostnames TopologyMapTmp in
      (set_TopologyMap out m, EDo (conn_id conn) (KEYS "*") :: tr)
  end.

(** ** Connecting: [RedisConnect], [Connect], [Reconnect] *)

(** [dial] is what [redis.DialTimeout] answers for this call. *)
Definition RedisConnect (out : RedisOutput) (db : Z) (dial : result Conn)
  : result Conn * trace :=
  let t_dial := [EDial (Hostname out) (Timeout out)] in
  match dial with
  | Fail e => (Fail e, t_dial)
  | Ok conn =>
      let c := conn_id conn in
      let with_auth := Nat.ltb 0 (String.length (Password out)) in
      let t_auth :=
        if with_auth then t_dial ++ [EDo c (AUTH (Password out))]
        else t_dial in
      match (if with_auth then conn_do conn (AUTH (Password out))
             else Ok RStatus) with
      | Fail e => (Fail e, t_auth)
      | Ok _ =>
          let t_ping := t_auth ++ [EDo c PING] in
          match conn_do conn PING with
          | Fail e => (Fail e, t_ping)
          | Ok _ =>
              let t_select := t_ping ++ [EDo c (SELECT db)] in
              match conn_do conn (SELECT db) with
              | Fail e => (Fail e, t_select)
              | Ok _ => (Ok conn, t_select)
              end
          end
      end
  end.

(** [out.Conn, err = out.RedisConnect(out.Db)] assigns both results, so a
    failed attempt stores the nil connection. *)
Definition Connect (out : RedisOutput) (dial : result Conn)
  : option error * RedisOutput * trace :=
  let '(r, tr) := RedisConnect out (Db out) dial in
  match r with
  | Fail e => (Some e, set_Conn out None, tr)
  | Ok conn => (None, set_connected (set_Conn out (Some conn)) true, tr)
  end.

(** A call either returns or is still inside its loop when the answers of
    the outside world are used up. *)
Inductive completion (A : Type) : Type :=
| Returns (a : A)
| Loops.
Arguments Returns {A} a.
Arguments Loops {A}.

(** [dials] holds the answers to the successive dials; what is left of it is
    returned. *)
Fixpoint Reconnect (out : RedisOutput) (dials : list (result Conn))
  : completion unit * RedisOutput * trace * list (result Conn) :=
  match dials with
  | [] => (Loops, out, [], [])
  | d :: rest =>
      let '(err, out1, tr) := Connect out d in
      match err with
      | Some _ =>
          let '(fin, out2, tr2, rest') := Reconnect out1 rest in
          (fin, out2, tr ++ ESleep (ReconnectInterval out1) :: tr2, rest')
      | None => (Returns tt, out1, tr, rest)
      end
  end.

(** ** Topology: [PublishIPs] *)

Definition PublishIPs (out : RedisOutput) (name : string)
  (localAddrs : list string) (dial : result Conn)
  : option error * RedisOutput * trace :=
  let '(r, t_conn) := RedisConnect out (DbTopology out) dial in
  match r with
  | Fail e => (Some e, out, t_conn)
  | Ok conn =>
      let c := conn_id conn in
      let hset := HSET name "ipaddrs" (strings_Join_comma localAddrs) in
      match conn_do conn hset with
      | Fail e => (Some e, out, t_conn ++ [EDo c hset; EClose c])
      | Ok _ =>
          let expire :=
            EXPIRE name (duration_seconds_int (TopologyExpire out)) in
          match conn_do conn expire with
          | Fail e =>
              (Some e, out, t_conn ++ [EDo c hset; EDo c expire; EClose c])
          | Ok _ =>
              let '(out', t_upd) := UpdateLocalTopologyMap out conn in
              (None, out',
               t_conn ++ [EDo c hset; EDo c expire] ++ t_upd ++ [EClose c])
          end
      end
  end.

(** ** Configuration and [Init] *)

Record Config : Type := MkConfig {
  cfg_Enabled : bool;
  cfg_SaveTopology : bool;
  cfg_Host : string;
  cfg_Port : Z;
  cfg_Hosts : list string;
  cfg_Protocol : string;
  cfg_Username : string;
  cfg_Password : string;
  cfg_Index : string;
  cfg_Path : string;
  cfg_Db : Z;
  cfg_DbTopology : Z;
  cfg_Timeout : Z;
  cfg_ReconnectInterval : Z;
  cfg_Filename : string;
  cfg_RotateEveryKb : Z;
  cfg_NumberOfFiles : Z;
  cfg_DataType : string;
  cfg_FlushInterval : option Z;
  cfg_BulkSize : option Z;
  cfg_MaxRetries : option Z;
}.

(** [fmt.Sprintf("%s:%d", host, port)] *)
Definition sprintf_host_port (host : string) (port : Z) : string :=
  String.append host
    (String.append ":" (DecimalString.NilZero.string_of_int (Z.to_int port))).

(** The data type named by the configuration; [None] is the [default] branch
    of the switch. *)
Definition parse_DataType (s : string) : option RedisDataType :=
  if String.eqb s "" || String.eqb s "list" then Some RedisListType
  else if String.eqb s "channel" then Some RedisChannelType
  else None.

(** Everything [Init] assigns before the switch on the data type. *)
Definition Init_fields (out : RedisOutput) (config : Config)
  (topology_expire : Z) : RedisOutput :=
  {| Index := if String.eqb (cfg_Index config) "" then "packetbeat"
              else cfg_Index config;
     RConn := RConn out;
     TopologyExpire :=
       duration_mul (if topology_expire =? 0 then 15 else topology_expire)
         Second;
     ReconnectInterval :=
       if cfg_ReconnectInterval config =? 0 then duration_mul 1 Second
       else duration_mul (cfg_ReconnectInterval config) Second;
     Hostname := sprintf_host_port (cfg_Host config) (cfg_Port config);
     Password := if String.eqb (cfg_Password config) "" then Password out
                 else cfg_Password config;
     Db := if cfg_Db config =? 0 then Db out else cfg_Db config;
     DbTopology := if cfg_DbTopology config =? 0 then 1
                   else cfg_DbTopology config;
     Timeout := if cfg_Timeout config =? 0 then duration_mul 5 Second
                else duration_mul (cfg_Timeout config) Second;
     DataType := DataType out;
     FlushInterval :=
       match cfg_FlushInterval config with
       | None => duration_mul 1000 Millisecond
       | Some n => if n <? 0 then duration_mul 1000 Millisecond
                   else duration_mul n Millisecond
       end;
     flush_immediatelly :=
       match cfg_FlushInterval config with
       | None => flush_immediatelly out
       | Some n => if n <? 0 then true else flush_immediatelly out
       end;
     TopologyMap := TopologyMap out;
     sendingQueue := sendingQueue out;
     connected := connected out |}.

Definition set_DataType (out : RedisOutput) (t : RedisDataType)
  : RedisOutput :=
  {| Index := Index out; RConn := RConn out;
     TopologyExpire := TopologyExpire out;
     ReconnectInterval := ReconnectInterval out; Hostname := Hostname out;
     Password := Password out; Db := Db out; DbTopology := DbTopology out;
     Timeout := Timeout out; DataType := t;
     FlushInterval := FlushInterval out;
     flush_immediatelly := flush_immediatelly out;
     TopologyMap := TopologyMap out;
     sendingQueue := sendingQueue out; connected := connected out |}.

Definition set_sendingQueue (out : RedisOutput) (q : option Chan)
  : RedisOutput :=
  {| Index := Index out; RConn := RConn out;
     TopologyExpire := TopologyExpire out;
     ReconnectInterval := ReconnectInterval out; Hostname := Hostname out;
     Password := Password out; Db := Db out; DbTopology := DbTopology out;
     Timeout := Timeout out; DataType := DataType out;
     FlushInterval := FlushInterval out;
     flush_immediatelly := flush_immediatelly out;
     TopologyMap := TopologyMap out;
     sendingQueue := q; connected := connected out |}.

(** [Init] returns an error, returns nil, or stays in [Reconnect]. *)
Definition Init (out : RedisOutput) (config : Config) (topology_expire : Z)
  (dials : list (result Conn))
  : completion (option error) * RedisOutput * trace :=
  let out1 := Init_fields out config topology_expire in
  match parse_DataType (cfg_DataType config) with
  | None => (Returns (Some "Bad Redis data type"), out1, [])
  | Some t =>
      let out2 := set_sendingQueue (set_DataType out1 t)
                    (Some (MkChan 1000 [])) in
      match Reconnect out2 dials with
      | (Returns _, out3, tr, _) =>
          (Returns None, out3, tr ++ [EGo GoSendMessages])
      | (Loops, out3, tr, _) => (Loops, out3, tr)
      end
  end.

(** ** The delivery worker: [SendMessagesGoroutine] *)

(** What the goroutine holds besides the shared [RedisOutput]: the counter
    [pending] and whether [flushChannel] is fed by a ticker. *)
Record Worker : Type := MkWorker {
  w_out : RedisOutput;
  w_pending : Z;
  w_ticker : bool;
}.

(** The prologue.  [time.NewTicker] panics on a duration that is not
    positive; the result is then [None]. *)
Definition worker_start (out : RedisOutput) : option Worker :=
  if negb (flush_immediatelly out) then
    if FlushInterval out <=? 0 then None
    else Some (MkWorker out 0 true)
  else Some (MkWorker out 0 false).

(** One turn of the [select].  An event carries the answer of the outside
    world to the call the turn makes, if it makes one: the error of
    [Send] or [Do] for a message, the error of [Receive] for a tick.
    [EnvConnect] is one [Connect] call of a [Reconnect] goroutine that runs
    between two turns. *)
Inductive Event : Type :=
| QueueMsg (queueMsg : RedisQueueMsg) (answer : option error)
| FlushTick (answer : option error)
| EnvConnect (dial : result Conn).

Inductive turn : Type :=
| Continue (w : Worker) (tr : trace)
| Panic (tr : trace)
| NoSuchEvent.

Definition set_w_out (w : Worker) (out : RedisOutput) : Worker :=
  MkWorker out (w_pending w) (w_ticker w).

Definition worker_command (out : RedisOutput) (m : RedisQueueMsg) : Command :=
  match DataType out with
  | RedisChannelType => PUBLISH (index m) (msg m)
  | RedisListType => RPUSH (index m) (msg m)
  end.

Definition worker_turn (w : Worker) (ev : Event) : turn :=
  let out := w_out w in
  match ev with
  | QueueMsg queueMsg answer =>
      if negb (connected out) then Continue w []
      else
        let command := worker_command out queueMsg in
        match RConn out with
        | None => Panic []
        | Some conn =>
            let c := conn_id conn in
            let '(pending, eff) :=
              if negb (flush_immediatelly out)
              then (wrap64 (w_pending w + 1), ESend c command)
              else (w_pending w, EDo c command) in
            match answer with
            | Some _ =>
                Continue (MkWorker (set_connected out false) pending
                            (w_ticker w))
                  [eff; EGo GoReconnect]
            | None => Continue (MkWorker out pending (w_ticker w)) [eff]
            end
        end
  | FlushTick answer =>
      if negb (w_ticker w) then NoSuchEvent
      else if 0 <? w_pending w then
        match RConn out with
        | None => Panic []
        | Some conn =>
            let c := conn_id conn in
            match answer with
            | Some _ =>
                Continue (MkWorker (set_connected out false) 0 (w_ticker w))
                  [EFlush c; EReceive c; EGo GoReconnect]
            | None =>
                Continue (MkWorker out 0 (w_ticker w))
                  [EFlush c; EReceive c]
            end
        end
      else Continue w []
  | EnvConnect dial =>
      let '(_, out', _) := Connect out dial in
      Continue (set_w_out w out') []
  end.

(** The loop over a sequence of events. *)
Fixpoint worker_run (w : Worker) (evs : list Event) : turn :=
  match evs with
  | [] => Continue w []
  | ev :: rest =>
      match worker_turn w ev with
      | Continue w' tr =>
          match worker_run w' rest with
          | Continue w'' tr' => Continue w'' (tr ++ tr')
          | Panic tr' => Panic (tr ++ tr')
          | NoSuchEvent => NoSuchEvent
          end
      | Panic tr => Panic tr
      | NoSuchEvent => NoSuchEvent
      end
  end.

Definition is_flush (e : Effect) : bool :=
  match e with EFlush _ => true | _ => false end.

Definition is_send (e : Effect) : bool :=
  match e with ESend _ _ => true | _ => false end.

Definition is_do (e : Effect) : bool :=
  match e with EDo _ _ => true | _ => false end.

Definition count_eff (p : Effect -> bool) (tr : trace) : nat :=
  length (List.filter p tr).

(** ** Two [Reconnect] goroutines on one [RedisOutput]

    The goroutines are interleaved at the two places where [Connect] touches
    the outside: the call of [RedisConnect], which only reads the struct,
    and the assignment of its results to the struct. *)

Inductive Phase : Type :=
| AtLoopHead
| Dialed (started_connected : bool) (r : result Conn)
| Finished.

Record Goro : Type := MkGoro {
  g_phase : Phase;
  g_dials : list (result Conn);
}.

(** One assignment [out.Conn, err = ...] as it happened: who made it, what
    was stored, and the value of [connected] when the attempt started and
    just before the assignment. *)
Record Assignment : Type := MkAssignment {
  a_who : bool;
  a_stored : option Conn;
  a_started_connected : bool;
  a_connected_before : bool;
}.

Record Sys : Type := MkSys {
  s_out : RedisOutput;
  s_a : Goro;
  s_b : Goro;
  s_log : list Assignment;
}.

Definition goro_step (who : bool) (out : RedisOutput) (g : Goro)
  : RedisOutput * Goro * list Assignment :=
  match g_phase g with
  | AtLoopHead =>
      match g_dials g with
      | [] => (out, g, [])
      | d :: rest =>
          (out,
           MkGoro (Dialed (connected out) (fst (RedisConnect out (Db out) d)))
             rest,
           [])
      end
  | Dialed started r =>
      match r with
      | Fail _ =>
          (set_Conn out None, MkGoro AtLoopHead (g_dials g),
           [MkAssignment who None started (connected out)])
      | Ok conn =>
          (set_connected (set_Conn out (Some conn)) true,
           MkGoro Finished (g_dials g),
           [MkAssignment who (Some conn) started (connected out)])
      end
  | Finished => (out, g, [])
  end.

(** [true] schedules the first goroutine, [false] the second. *)
Definition sys_step (s : Sys) (who : bool) : Sys :=
  if who then
    let '(out, g, l) := goro_step true (s_out s) (s_a s) in
    MkSys out g (s_b s) (s_log s ++ l)
  else
    let '(out, g, l) := goro_step false (s_out s) (s_b s) in
    MkSys out (s_a s) g (s_log s ++ l).

Definition sys_run (s : Sys) (schedule : list bool) : Sys :=
  fold_left sys_step schedule s.

Definition sys_init (out : RedisOutput) (da db : list (result Conn)) : Sys :=
  MkSys out (MkGoro AtLoopHead da) (MkGoro AtLoopHead db) [].

Definition is_Finished (p : Phase) : bool :=
  match p with Finished => true | _ => false end.

Definition is_replacement (a : Assignment) : bool :=
  match a_stored a with Some _ => true | None => false end.

Definition replacements (l : list Assignment) : list Assignment :=
  List.filter is_replacement l.

(** ** A registry as the topology connection sees it *)

Fixpoint registry_get (reg : list (string * string)) (k : string)
  : option string :=
  match reg with
  | [] => None
  | (k', v) :: rest => if String.eqb k k' then Some v else registry_get rest k
  end.

(** The connection to a store holding, under each identity, the field
    [ipaddrs] with the comma-joined addresses. *)
Definition registry_conn (id : nat) (reg : list (string * string)) : Conn :=
  MkConn id (fun cmd =>
    match cmd with
    | KEYS _ => Ok (RList reg.*1)
    | HGET k _ =>
        match registry_get reg k with
        | Some v => Ok (RText v)
        | None => Fail "redigo: nil returned"
        end
    | _ => Ok RStatus
    end).


(** ** Definitions used by the statements *)


Definition example_registry : list (string * string) :=
  [("A", "10.0.0.1,10.0.0.2"); ("B", "10.0.0.3")].

(** A connection on which the listing of the identities fails. *)
Definition keys_failing_conn : Conn :=
  MkConn 7 (fun cmd =>
    match cmd with
    | KEYS _ => Fail "EOF"
    | HGET _ _ => Ok (RText "10.9.9.9")
    | _ => Ok RStatus
    end).

(** The commands of the handshake after the dial, in order. *)
Definition handshake (out : RedisOutput) (db : Z) : list Command :=
  (if Nat.ltb 0 (String.length (Password out))
   then [AUTH (Password out)] else [])
  ++ [PING; SELECT db].

Definition succeeds (conn : Conn) (cmd : Command) : Prop :=
  is_ok (conn_do conn cmd) = true.

Definition is_dial (e : Effect) : bool :=
  match e with EDial _ _ => true | _ => false end.

(** The outcome of one connect attempt against the answer [d]. *)
Definition attempt (out : RedisOutput) (d : result Conn) : result Conn :=
  fst (RedisConnect out (Db out) d).

Definition attempt_trace (out : RedisOutput) (d : result Conn) : trace :=
  snd (RedisConnect out (Db out) d).

Definition attempt_fails (out : RedisOutput) (d : result Conn) : Prop :=
  is_ok (attempt out d) = false.

(** What a run of failed attempts leaves in the trace: each attempt, then
    the sleep. *)
Definition failed_attempts_trace (out : RedisOutput)
  (fails : list (result Conn)) : trace :=
  flat_map (fun d => attempt_trace out d ++ [ESleep (ReconnectInterval out)])
    fails.

Definition is_sleep (e : Effect) : bool :=
  match e with ESleep _ => true | _ => false end.

(** The state in the loop after the attempts [fails] have failed. *)
Definition after_failures (out : RedisOutput) (fails : list (result Conn))
  : RedisOutput :=
  match fails with
  | [] => out
  | _ :: _ => set_Conn out None
  end.

Definition then_run (t : turn) (k : Worker -> turn) : turn :=
  match t with
  | Continue w tr =>
      match k w with
      | Continue w' tr' => Continue w' (tr ++ tr')
      | Panic tr' => Panic (tr ++ tr')
      | NoSuchEvent => NoSuchEvent
      end
  | Panic tr => Panic tr
  | NoSuchEvent => NoSuchEvent
  end.

(** Messages that are sent without an error. *)
Definition sent_ok (msgs : list RedisQueueMsg) : list Event :=
  map (fun m => QueueMsg m None) msgs.

Definition example_config : Config :=
  {| cfg_Enabled := true; cfg_SaveTopology := true;
     cfg_Host := "localhost"; cfg_Port := 6379; cfg_Hosts := [];
     cfg_Protocol := ""; cfg_Username := ""; cfg_Password := "";
     cfg_Index := ""; cfg_Path := ""; cfg_Db := 0; cfg_DbTopology := 0;
     cfg_Timeout := 0; cfg_ReconnectInterval := 0; cfg_Filename := "";
     cfg_RotateEveryKb := 0; cfg_NumberOfFiles := 0; cfg_DataType := "";
     cfg_FlushInterval := None; cfg_BulkSize := None;
     cfg_MaxRetries := None |}.

Definition with_FlushInterval (config : Config) (fi : option Z) : Config :=
  {| cfg_Enabled := cfg_Enabled config;
     cfg_SaveTopology := cfg_SaveTopology config;
     cfg_Host := cfg_Host config; cfg_Port := cfg_Port config;
     cfg_Hosts := cfg_Hosts config; cfg_Protocol := cfg_Protocol config;
     cfg_Username := cfg_Username config;
     cfg_Password := cfg_Password config; cfg_Index := cfg_Index config;
     cfg_Path := cfg_Path config; cfg_Db := cfg_Db config;
     cfg_DbTopology := cfg_DbTopology config;
     cfg_Timeout := cfg_Timeout config;
     cfg_ReconnectInterval := cfg_ReconnectInterval config;
     cfg_Filename := cfg_Filename config;
     cfg_RotateEveryKb := cfg_RotateEveryKb config;
     cfg_NumberOfFiles := cfg_NumberOfFiles config;
     cfg_DataType := cfg_DataType config;
     cfg_FlushInterval := fi; cfg_BulkSize := cfg_BulkSize config;
     cfg_MaxRetries := cfg_MaxRetries config |}.

Definition with_DataType (config : Config) (t : string) : Config :=
  {| cfg_Enabled := cfg_Enabled config;
     cfg_SaveTopology := cfg_SaveTopology config;
     cfg_Host := cfg_Host config; cfg_Port := cfg_Port config;
     cfg_Hosts := cfg_Hosts config; cfg_Protocol := cfg_Protocol config;
     cfg_Username := cfg_Username config;
     cfg_Password := cfg_Password config; cfg_Index := cfg_Index config;
     cfg_Path := cfg_Path config; cfg_Db := cfg_Db config;
     cfg_DbTopology := cfg_DbTopology config;
     cfg_Timeout := cfg_Timeout config;
     cfg_ReconnectInterval := cfg_ReconnectInterval config;
     cfg_Filename := cfg_Filename config;
     cfg_RotateEveryKb := cfg_RotateEveryKb config;
     cfg_NumberOfFiles := cfg_NumberOfFiles config;
     cfg_DataType := t; cfg_FlushInterval := cfg_FlushInterval config;
     cfg_BulkSize := cfg_BulkSize config;
     cfg_MaxRetries := cfg_MaxRetries config |}.

(** A server that accepts every command. *)
Definition good_conn (id : nat) : Conn := MkConn id (fun _ => Ok RStatus).

(** A server that does not answer the liveness check. *)
Definition no_ping_conn (id : nat) : Conn :=
  MkConn id (fun cmd =>
    match cmd with PING => Fail "i/o timeout" | _ => Ok RStatus end).

(** The output as [Init] leaves it for [config] when the first dial
    succeeds on [good_conn 1]. *)
Definition initialised (config : Config) : RedisOutput :=
  snd (fst (Init zero_RedisOutput config 0 [Ok (good_conn 1)])).

Definition example_msg (n : string) : RedisQueueMsg := MkMsg "packetbeat" n.

Definition unhealthy (out : RedisOutput) : RedisOutput :=
  set_connected out false.

(** The worker of the batched mode after one message has been pipelined. *)
Definition one_pending : Worker :=
  MkWorker (initialised example_config) 1 true.

(** The output [Init] hands to [Reconnect]. *)
Definition Init_before_connect (out : RedisOutput) (config : Config)
  (topology_expire : Z) (t : RedisDataType) : RedisOutput :=
  set_sendingQueue (set_DataType (Init_fields out config topology_expire) t)
    (Some (MkChan 1000 [])).

(** The largest number of milliseconds a [time.Duration] holds. *)
Definition max_Milliseconds : Z := 9223372036854.

(** The mode the configuration selects: [None] is flushing on each push,
    [Some n] is a ticker of [n] milliseconds. *)
Definition configured_interval (config : Config) : option Z :=
  match cfg_FlushInterval config with
  | None => Some 1000
  | Some n => if n <? 0 then None else Some n
  end.

Definition five_msgs : list RedisQueueMsg :=
  map example_msg ["e1"; "e2"; "e3"; "e4"; "e5"].



(** A server that refuses every connection, [n] times. *)
Definition refused (n : nat) : list (result Conn) :=
  repeat (Fail "connection refused") n.

Definition finished_count (s : Sys) : nat :=
  ((if is_Finished (g_phase (s_a s)) then 1 else 0)
   + (if is_Finished (g_phase (s_b s)) then 1 else 0))%nat.

(** The last assignment stored a handle, and that handle is the one the
    output holds, with [connected] set. *)
Definition last_wins (s : Sys) : Prop :=
  exists a conn,
    last (s_log s) = Some a
    /\ a_stored a = Some conn
    /\ RConn (s_out s) = Some conn
    /\ connected (s_out s) = true.

Definition sys_inv (s : Sys) : Prop :=
  length (replacements (s_log s)) = finished_count s
  /\ (finished_count s = 2%nat -> last_wins s).

(** ** Byte order utilities and [ReadString] *)

(** A Go [byte] is a [Byte.byte]; a slice of bytes is a list, and indexing
    past its end panics: the functions below then return [None]. *)
Definition byte_val (b : byte) : Z := Z.of_N (Byte.to_N b).

(** The conversion [byte(x)] of an unsigned integer keeps the low 8 bits. *)
Definition byte_of_Z (z : Z) : byte :=
  match Byte.of_N (Z.to_N (z mod 256)) with
  | Some b => b
  | None => Byte.x00
  end.

(** Unsigned integers of [w] bits wrap modulo [2 ^ w]. *)
Definition wrapu (w : Z) (z : Z) : Z := z mod 2 ^ w.

Definition Ntohs (b : list byte) : option Z :=
  b0 ← b !! 0%nat;
  b1 ← b !! 1%nat;
  Some (Z.lor (wrapu 16 (Z.shiftl (byte_val b0) 8)) (byte_val b1)).

Definition Ntohl (b : list byte) : option Z :=
  b0 ← b !! 0%nat;
  b1 ← b !! 1%nat;
  b2 ← b !! 2%nat;
  b3 ← b !! 3%nat;
  Some (Z.lor
          (Z.lor
             (Z.lor (wrapu 32 (Z.shiftl (byte_val b0) 24))
                (wrapu 32 (Z.shiftl (byte_val b1) 16)))
             (wrapu 32 (Z.shiftl (byte_val b2) 8)))
          (byte_val b3)).

Definition Htonl (b : list byte) : option Z :=
  b3 ← b !! 3%nat;
  b2 ← b !! 2%nat;
  b1 ← b !! 1%nat;
  b0 ← b !! 0%nat;
  Some (Z.lor
          (Z.lor
             (Z.lor (wrapu 32 (Z.shiftl (byte_val b3) 24))
                (wrapu 32 (Z.shiftl (byte_val b2) 16)))
             (wrapu 32 (Z.shiftl (byte_val b1) 8)))
          (byte_val b0)).

Definition Ntohll (b : list byte) : option Z :=
  b0 ← b !! 0%nat;
  b1 ← b !! 1%nat;
  b2 ← b !! 2%nat;
  b3 ← b !! 3%nat;
  b4 ← b !! 4%nat;
  b5 ← b !! 5%nat;
  b6 ← b !! 6%nat;
  b7 ← b !! 7%nat;
  Some (Z.lor
          (Z.lor
             (Z.lor
                (Z.lor
                   (Z.lor
                      (Z.lor
                         (Z.lor (wrapu 64 (Z.shiftl (byte_val b0) 56))
                            (wrapu 64 (Z.shiftl (byte_val b1) 48)))
                         (wrapu 64 (Z.shiftl (byte_val b2) 40)))
                      (wrapu 64 (Z.shiftl (byte_val b3) 32)))
                   (wrapu 64 (Z.shiftl (byte_val b4) 24)))
                (wrapu 64 (Z.shiftl (byte_val b5) 16)))
             (wrapu 64 (Z.shiftl (byte_val b6) 8)))
          (byte_val b7)).

(** [%d] of a non-negative integer. *)
Definition sprintf_d (z : Z) : string :=
  DecimalString.NilZero.string_of_int (Z.to_int z).

(** [ip] is a [uint32]. *)
Definition Ipv4Ntoa (ip : Z) : string :=
  String.append (sprintf_d (byte_val (byte_of_Z (Z.shiftr ip 24))))
    (String.append "."
       (String.append (sprintf_d (byte_val (byte_of_Z (Z.shiftr ip 16))))
          (String.append "."
             (String.append (sprintf_d (byte_val (byte_of_Z (Z.shiftr ip 8))))
                (String.append "." (sprintf_d (byte_val (byte_of_Z ip)))))))).

(** [bytes.IndexByte]: the index of the first [c] in [s], or -1. *)
Fixpoint IndexByte (s : list byte) (c : byte) : Z :=
  match s with
  | [] => -1
  | b :: rest =>
      if Byte.eqb b c then 0
      else let i := IndexByte rest c in
           if i <? 0 then -1 else i + 1
  end.

Definition ReadString (s : list byte) : result string :=
  let i := IndexByte s Byte.x00 in
  if i <? 0 then Fail "No string found"
  else Ok (string_of_list_byte (take (Z.to_nat i) s)).

(** The two bytes [byte(x >> 8), byte(x)] and the four bytes
    [byte(x >> 24), byte(x >> 16), byte(x >> 8), byte(x)] that
    [ComputeHashables] writes for a port and for a stream id. *)
Definition put_be16 (x : Z) : list byte :=
  [byte_of_Z (Z.shiftr x 8); byte_of_Z x].

Definition put_be32 (x : Z) : list byte :=
  [byte_of_Z (Z.shiftr x 24); byte_of_Z (Z.shiftr x 16);
   byte_of_Z (Z.shiftr x 8); byte_of_Z x].

(** ** Hashable tuples *)

(** [copy(dst[off:off+width], src)]: as many bytes as both the window and
    [src] hold are overwritten, the rest of [dst] stays. *)
Definition copy_at (dst : list byte) (off width : nat) (src : list byte)
  : list byte :=
  let n := Nat.min width (length src) in
  take off dst ++ take n src ++ drop (off + n) dst.

Definition MaxIpPortTupleRawSize : nat := 16 + 16 + 2 + 2.
Definition MaxTcpTupleRawSize : nat := 16 + 16 + 2 + 2 + 4.

(** [IpPortTuple]; [net.IP] is a slice of bytes, the ports are [uint16],
    [raw] and [revRaw] are arrays of [MaxIpPortTupleRawSize] bytes. *)
Record IpPortTuple : Type := MkIpPortTuple {
  ipt_IpLength : Z;
  ipt_SrcIp : list byte;
  ipt_DstIp : list byte;
  ipt_SrcPort : Z;
  ipt_DstPort : Z;
  ipt_raw : list byte;
  ipt_revRaw : list byte;
}.

Definition IpPortTuple_ComputeHashables (t : IpPortTuple) : IpPortTuple :=
  let raw1 := copy_at (ipt_raw t) 0 16 (ipt_SrcIp t) in
  let raw2 := copy_at raw1 16 2 (put_be16 (ipt_SrcPort t)) in
  let raw3 := copy_at raw2 18 16 (ipt_DstIp t) in
  let raw4 := copy_at raw3 34 2 (put_be16 (ipt_DstPort t)) in
  let rev1 := copy_at (ipt_revRaw t) 0 16 (ipt_DstIp t) in
  let rev2 := copy_at rev1 16 2 (put_be16 (ipt_DstPort t)) in
  let rev3 := copy_at rev2 18 16 (ipt_SrcIp t) in
  let rev4 := copy_at rev3 34 2 (put_be16 (ipt_SrcPort t)) in
  MkIpPortTuple (ipt_IpLength t) (ipt_SrcIp t) (ipt_DstIp t) (ipt_SrcPort t)
    (ipt_DstPort t) raw4 rev4.

Definition NewIpPortTuple (ipLength : Z) (srcIp : list byte) (srcPort : Z)
  (dstIp : list byte) (dstPort : Z) : IpPortTuple :=
  IpPortTuple_ComputeHashables
    (MkIpPortTuple ipLength srcIp dstIp srcPort dstPort
       (replicate MaxIpPortTupleRawSize Byte.x00)
       (replicate MaxIpPortTupleRawSize Byte.x00)).

Definition IpPortTuple_Hashable (t : IpPortTuple) : list byte := ipt_raw t.

Definition IpPortTuple_RevHashable (t : IpPortTuple) : list byte :=
  ipt_revRaw t.

(** [TcpTuple]; [StreamId] is a [uint32]. *)
Record TcpTuple : Type := MkTcpTuple {
  tcp_IpLength : Z;
  tcp_SrcIp : list byte;
  tcp_DstIp : list byte;
  tcp_SrcPort : Z;
  tcp_DstPort : Z;
  tcp_StreamId : Z;
  tcp_raw : list byte;
}.

Definition TcpTuple_ComputeHashables (t : TcpTuple) : TcpTuple :=
  let raw1 := copy_at (tcp_raw t) 0 16 (tcp_SrcIp t) in
  let raw2 := copy_at raw1 16 2 (put_be16 (tcp_SrcPort t)) in
  let raw3 := copy_at raw2 18 16 (tcp_DstIp t) in
  let raw4 := copy_at raw3 34 2 (put_be16 (tcp_DstPort t)) in
  let raw5 := copy_at raw4 36 4 (put_be32 (tcp_StreamId t)) in
  MkTcpTuple (tcp_IpLength t) (tcp_SrcIp t) (tcp_DstIp t) (tcp_SrcPort t)
    (tcp_DstPort t) (tcp_StreamId t) raw5.

Definition TcpTupleFromIpPort (t : IpPortTuple) (tcp_id : Z) : TcpTuple :=
  TcpTuple_ComputeHashables
    (MkTcpTuple (ipt_IpLength t) (ipt_SrcIp t) (ipt_DstIp t) (ipt_SrcPort t)
       (ipt_DstPort t) tcp_id (replicate MaxTcpTupleRawSize Byte.x00)).

Definition TcpTuple_IpPort (t : TcpTuple) : IpPortTuple :=
  NewIpPortTuple (tcp_IpLength t) (tcp_SrcIp t) (tcp_SrcPort t) (tcp_DstIp t)
    (tcp_DstPort t).

Definition TcpTuple_Hashable (t : TcpTuple) : list byte := tcp_raw t.

(** An address as it lies in its 16 bytes of a fresh array: cut at 16 bytes
    and filled up with zero bytes. *)
Definition pad16 (ip : list byte) : list byte :=
  take 16 ip ++ replicate (16 - length ip) Byte.x00.

(** What [copy(old[:], src)] leaves in the window [old]. *)
Definition overlay (src old : list byte) : list byte :=
  take (Nat.min (length old) (length src)) src
  ++ drop (Nat.min (length old) (length src)) old.

Definition is_uint16 (p : Z) : Prop := 0 <= p < 2 ^ 16.
Definition is_uint32 (x : Z) : Prop := 0 <= x < 2 ^ 32.

(** The assignment [t.SrcIp = ip] to the exported field. *)
Definition set_ipt_SrcIp (t : IpPortTuple) (ip : list byte) : IpPortTuple :=
  MkIpPortTuple (ipt_IpLength t) ip (ipt_DstIp t) (ipt_SrcPort t)
    (ipt_DstPort t) (ipt_raw t) (ipt_revRaw t).

(** ** The queue: [PublishEvent] and the worker's receive *)

(** A call that returns a value or stays blocked on a channel. *)
Inductive call (A : Type) : Type :=
| Done (a : A)
| Blocks.
Arguments Done {A} a.
Arguments Blocks {A}.

(** [ch <- m]: a nil channel blocks for ever, a full buffer blocks until a
    receive makes room; [None] is the blocked send. *)
Definition chan_send (q : option Chan) (m : RedisQueueMsg) : option Chan :=
  match q with
  | None => None
  | Some c =>
      if Nat.ltb (length (chan_buf c)) (chan_cap c)
      then Some (MkChan (chan_cap c) (chan_buf c ++ [m]))
      else None
  end.

(** [<-ch]: the oldest message, if there is one. *)
Definition chan_recv (q : option Chan) : option (RedisQueueMsg * Chan) :=
  match q with
  | None => None
  | Some c =>
      match chan_buf c with
      | [] => None
      | m :: rest => Some (m, MkChan (chan_cap c) rest)
      end
  end.

(** [marshalled] is what [json.Marshal(event)] answers. *)
Definition PublishEvent (out : RedisOutput) (marshalled : result string)
  : call (option error) * RedisOutput :=
  match marshalled with
  | Fail e => (Done (Some e), out)
  | Ok json_event =>
      match chan_send (sendingQueue out) (MkMsg (Index out) json_event) with
      | Some q => (Done None, set_sendingQueue out (Some q))
      | None => (Blocks, out)
      end
  end.

(** Successive calls of [PublishEvent]; the run ends at the first call that
    blocks. *)
Fixpoint publish_all (out : RedisOutput) (events : list (result string))
  : list (call (option error)) * RedisOutput :=
  match events with
  | [] => ([], out)
  | ev :: rest =>
      match PublishEvent out ev with
      | (Done r, out') =>
          let '(rs, out'') := publish_all out' rest in (Done r :: rs, out'')
      | (Blocks, out') => ([Blocks], out')
      end
  end.

(** The worker's turn on the message it receives from the queue; [None]
    when the queue is empty. *)
Definition worker_receive (w : Worker) (answer : option error)
  : option turn :=
  match chan_recv (sendingQueue (w_out w)) with
  | None => None
  | Some (m, q) =>
      Some (worker_turn (set_w_out w (set_sendingQueue (w_out w) (Some q)))
              (QueueMsg m answer))
  end.

(** The worker receiving [n] times, every send being answered without an
    error. *)
Fixpoint worker_drain (w : Worker) (n : nat) : option turn :=
  match n with
  | O => Some (Continue w [])
  | S n' =>
      match worker_receive w None with
      | None => None
      | Some (Continue w' tr) =>
          match worker_drain w' n' with
          | Some (Continue w'' tr') => Some (Continue w'' (tr ++ tr'))
          | Some (Panic tr') => Some (Panic (tr ++ tr'))
          | other => other
          end
      | Some other => Some other
      end
  end.

(** The effect of delivering one message in the mode of [out]. *)
Definition delivery (out : RedisOutput) (c : nat) (m : RedisQueueMsg)
  : Effect :=
  if flush_immediatelly out then EDo c (worker_command out m)
  else ESend c (worker_command out m).

(** The number of sends in a trace since its last flush, starting with
    [n]. *)
Definition sends_since_flush (n : nat) (tr : trace) : nat :=
  fold_left (fun k e => match e with
                        | ESend _ _ => S k
                        | EFlush _ => O
                        | _ => k
                        end) tr n.

Definition is_receive (e : Effect) : bool :=
  match e with EReceive _ => true | _ => false end.

(** The serialized events among the answers of [json.Marshal]. *)
Definition marshalled_ok (events : list (result string)) : list string :=
  omap (fun ev => match ev with Ok j => Some j | Fail _ => None end) events.

(** What [PublishEvent] returns for an event that does not block. *)
Definition publish_result (ev : result string) : call (option error) :=
  match ev with
  | Ok _ => Done None
  | Fail e => Done (Some e)
  end.

(** Whether the byte [c] occurs in [s]. *)
Fixpoint has_char (c : ascii) (s : string) : bool :=
  match s with
  | EmptyString => false
  | String a s' => Ascii.eqb a c || has_char c s'
  end.

Definition comma_free (s : string) : Prop := has_char comma s = false.

(** ** GeoIP data, output names and the file output *)

(** The file system and the GeoIP library as [LoadGeoIPData] sees them:
    [fs_Lstat] fails ([None]) or tells whether the mode has the symlink
    bit; [fs_EvalSymlinks] resolves a path or fails; [geo_Load] is
    [libgeo.Load], with its result ([None] for nil) and its error. *)
Record FileSystem : Type := MkFileSystem {
  fs_Lstat : string -> option bool;
  fs_EvalSymlinks : string -> result string;
  geo_Load : string -> option string * option error;
}.

Inductive FsOp : Type :=
| OpLstat (path : string)
| OpEvalSymlinks (path : string)
| OpLoad (path : string).

(** The initial value of the package variable [geoipPaths]. *)
Definition default_geoipPaths : list string :=
  ["/usr/share/GeoIP/GeoIP.dat"; "/usr/local/var/GeoIP/GeoIP.dat"].

(** The loop that looks for the first existing path.  The result is [None]
    when the function returns nil from inside the loop, and otherwise the
    value of [geoipPath] after the loop, empty when no path was found. *)
Fixpoint geoip_scan (fs : FileSystem) (paths : list string)
  : option string * list FsOp :=
  match paths with
  | [] => (Some "", [])
  | path :: rest =>
      match fs_Lstat fs path with
      | None =>
          let '(r, tr) := geoip_scan fs rest in (r, OpLstat path :: tr)
      | Some true =>
          match fs_EvalSymlinks fs path with
          | Fail _ => (None, [OpLstat path; OpEvalSymlinks path])
          | Ok target => (Some target, [OpLstat path; OpEvalSymlinks path])
          end
      | Some false => (Some path, [OpLstat path])
      end
  end.

(** [geoipPaths] is the package variable before the call, [config_Paths]
    the slice of the configuration ([None] for nil); the result is the
    loaded data (or nil), the package variable after the call and the
    accesses made. *)
Definition LoadGeoIPData (geoipPaths : list string)
  (config_Paths : option (list string)) (fs : FileSystem)
  : option string * list string * list FsOp :=
  let paths := match config_Paths with
               | Some ps => ps
               | None => geoipPaths
               end in
  if Nat.eqb (length paths) 0 then (None, paths, [])
  else
    match geoip_scan fs paths with
    | (None, tr) => (None, paths, tr)
    | (Some geoipPath, tr) =>
        if Nat.eqb (String.length geoipPath) 0 then (None, paths, tr)
        else (fst (geo_Load fs geoipPath), paths, tr ++ [OpLoad geoipPath])
    end.

(** [OutputNames] and [OutputPlugin.String]; the plugin identifier is a
    [uint16], and [None] would be an index out of range. *)
Definition OutputNames : list string :=
  ["unknown"; "redis"; "elasticsearch"; "file"].

Definition OutputPlugin_String (o : Z) : option string :=
  if Z.of_nat (length OutputNames) <=? o then Some "impossible"
  else OutputNames !! Z.to_nat o.

(** The fields of [logp.FileRotator] that [FileOutput.Init] assigns;
    [RotateEveryBytes] is a pointer to a [uint64], [KeepFiles] a pointer to
    an [int]. *)
Record FileRotator : Type := MkFileRotator {
  rot_Path : string;
  rot_Name : string;
  rot_RotateEveryBytes : option Z;
  rot_KeepFiles : option Z;
}.

Inductive RotatorOp : Type :=
| OpCreateDirectory (r : FileRotator)
| OpCheckIfConfigSane (r : FileRotator).

(** [uint64(n) * 1024] for an [int] n. *)
Definition kb_to_bytes (kb : Z) : Z := wrapu 64 (wrapu 64 kb * 1024).

(** [create_directory] and [check_sane] are the answers of the rotator's
    methods [CreateDirectory] and [CheckIfConfigSane]. *)
Definition FileOutput_Init (config : Config)
  (create_directory check_sane : FileRotator -> option error)
  : option error * FileRotator * list RotatorOp :=
  let name := if String.eqb (cfg_Filename config) "" then "packetbeat"
              else cfg_Filename config in
  let rotateeverybytes :=
    if kb_to_bytes (cfg_RotateEveryKb config) =? 0 then 10 * 1024 * 1024
    else kb_to_bytes (cfg_RotateEveryKb config) in
  let keepfiles := if cfg_NumberOfFiles config =? 0 then 7
                   else cfg_NumberOfFiles config in
  let rotator := MkFileRotator (cfg_Path config) name (Some rotateeverybytes)
                   (Some keepfiles) in
  match create_directory rotator with
  | Some e => (Some e, rotator, [OpCreateDirectory rotator])
  | None =>
      match check_sane rotator with
      | Some e =>
          (Some e, rotator,
           [OpCreateDirectory rotator; OpCheckIfConfigSane rotator])
      | None =>
          (None, rotator,
           [OpCreateDirectory rotator; OpCheckIfConfigSane rotator])
      end
  end.

(** * Properties *)

(** ** Topology refresh and lookup *)

Section Topology.

Variable conn : Conn.









End Topology.




(** The example of the specification. *)
Example refresh_example :
  let out' := fst (UpdateLocalTopologyMap zero_RedisOutput
                     (registry_conn 0 example_registry)) in
  GetNameByIP out' "10.0.0.2" = "A"
  /\ GetNameByIP out' "10.0.0.9" = ""
  /\ TopologyMap out' !! "10.0.0.9" = None
  /\ GetNameByIP out' "10.0.0.3" = "B".
Proof. vm_compute. repeat split. Qed.

(** C10: when the listing of the identities fails, the Refresh returns at
    once: the output, and with it the local Topology Map, is the one from
    before, and no address list is fetched. *)
Theorem C10_failed_listing_keeps_map (out : RedisOutput) (conn : Conn)
  (e : error) :
  redis_Strings (conn_do conn (KEYS "*")) = Fail e ->
  UpdateLocalTopologyMap out conn = (out, [EDo (conn_id conn) (KEYS "*")])
  /\ TopologyMap (fst (UpdateLocalTopologyMap out conn)) = TopologyMap out
  /\ forall ip, GetNameByIP (fst (UpdateLocalTopologyMap out conn)) ip
                = GetNameByIP out ip.
Proof.
  intros Hkeys. unfold UpdateLocalTopologyMap. rewrite Hkeys. auto.
Qed.

Lemma C10_failed_listing_keeps_map_witness :
  let out := fst (UpdateLocalTopologyMap zero_RedisOutput
                    (registry_conn 0 example_registry)) in
  redis_Strings (conn_do keys_failing_conn (KEYS "*")) = Fail "EOF"
  /\ UpdateLocalTopologyMap out keys_failing_conn = (out, [EDo 7 (KEYS "*")])
  /\ TopologyMap (fst (UpdateLocalTopologyMap out keys_failing_conn))
     = TopologyMap out
  /\ forall ip, GetNameByIP (fst (UpdateLocalTopologyMap out keys_failing_conn))
                  ip = GetNameByIP out ip.
Proof.
  intros out. split; [reflexivity|].
  exact (C10_failed_listing_keeps_map out keys_failing_conn "EOF" eq_refl).
Defined.

(** ** The handshake of [RedisConnect] *)

Section Handshake.

Lemma length_zero_empty (s : string) :
  Nat.ltb 0 (String.length s) = false <-> s = "".
Proof.
  destruct s; split; intros H; try reflexivity; discriminate.
Qed.

Lemma succeeds_Ok (conn : Conn) (cmd : Command) (r : Reply) :
  conn_do conn cmd = Ok r -> succeeds conn cmd.
Proof. unfold succeeds. now intros ->. Qed.

Lemma RedisConnect_dials_once (out : RedisOutput) (db : Z)
  (dial : result Conn) :
  count_eff is_dial (snd (RedisConnect out db dial)) = 1%nat.
Proof.
  unfold RedisConnect. destruct dial as [conn|e]; [|reflexivity].
  destruct (Nat.ltb 0 (String.length (Password out)));
    [destruct (conn_do conn (AUTH (Password out)))|];
    try reflexivity;
    (destruct (conn_do conn PING); [|reflexivity]);
    destruct (conn_do conn (SELECT db)); reflexivity.
Qed.

End Handshake.

(** C6: connect dials once, then authenticates if and only if a password is
    configured, then checks liveness, then selects the database, in this
    order.  The first step that fails ends the call with that step's error
    and nothing after it is executed; the handle of the dial is returned
    exactly when every step succeeded. *)
Theorem C6_connect_steps (out : RedisOutput) (db : Z) (dial : result Conn) :
  let r := fst (RedisConnect out db dial) in
  let tr := snd (RedisConnect out db dial) in
  let steps := handshake out db in
  count_eff is_dial tr = 1%nat
  /\ (AUTH (Password out) ∈ steps <-> Password out <> "")
  /\ match dial with
     | Fail e => r = Fail e /\ tr = [EDial (Hostname out) (Timeout out)]
     | Ok conn =>
         match r with
         | Ok conn' =>
             conn' = conn
             /\ Forall (succeeds conn) steps
             /\ tr = EDial (Hostname out) (Timeout out)
                       :: map (EDo (conn_id conn)) steps
         | Fail e =>
             exists pre cmd post,
               steps = pre ++ cmd :: post
               /\ Forall (succeeds conn) pre
               /\ conn_do conn cmd = Fail e
               /\ tr = EDial (Hostname out) (Timeout out)
                         :: map (EDo (conn_id conn)) (pre ++ [cmd])
         end
     end.
Proof.
  unfold RedisConnect, handshake.
  destruct dial as [conn|e]; simpl.
  2:{ split; [reflexivity|]. split; [|now split].
      destruct (Password out); simpl; split; try congruence.
      - intros H. repeat (apply elem_of_cons in H as [H|H]; try discriminate).
        now apply elem_of_nil in H.
      - intros _. apply list_elem_of_here. }
  destruct (Nat.ltb 0 (String.length (Password out))) eqn:Hpw; simpl.
  - assert (Hne : Password out <> "").
    { intros Hp. rewrite Hp in Hpw. discriminate. }
    destruct (conn_do conn (AUTH (Password out))) as [ra|ea] eqn:Ha; simpl.
    + destruct (conn_do conn PING) as [rp|ep] eqn:Hp; simpl.
      * destruct (conn_do conn (SELECT db)) as [rs|es] eqn:Hs; simpl.
        -- split; [reflexivity|]. split; [split; [easy|]|].
           { intros _. apply list_elem_of_here. }
           split; [reflexivity|]. split; [|reflexivity].
           repeat constructor; eauto using succeeds_Ok.
        -- split; [reflexivity|]. split; [split; [easy|]|].
           { intros _. apply list_elem_of_here. }
           exists [AUTH (Password out); PING], (SELECT db), [].
           repeat split; try assumption.
           repeat constructor; eauto using succeeds_Ok.
      * split; [reflexivity|]. split; [split; [easy|]|].
        { intros _. apply list_elem_of_here. }
        exists [AUTH (Password out)], PING, [SELECT db].
        repeat split; try assumption.
        repeat constructor; eauto using succeeds_Ok.
    + split; [reflexivity|]. split; [split; [easy|]|].
      { intros _. apply list_elem_of_here. }
      exists [], (AUTH (Password out)), [PING; SELECT db].
      repeat split; try assumption. constructor.
  - assert (He : Password out = "") by now apply length_zero_empty.
    assert (Hno : AUTH (Password out) ∈ [PING; SELECT db]
                  <-> Password out <> "").
    { split; [|congruence]. intros H.
      repeat (apply elem_of_cons in H as [H|H]; try discriminate).
      now apply elem_of_nil in H. }
    destruct (conn_do conn PING) as [rp|ep] eqn:Hp; simpl.
    + destruct (conn_do conn (SELECT db)) as [rs|es] eqn:Hs; simpl.
      * split; [reflexivity|]. split; [exact Hno|].
        split; [reflexivity|]. split; [|reflexivity].
        repeat constructor; eauto using succeeds_Ok.
      * split; [reflexivity|]. split; [exact Hno|].
        exists [PING], (SELECT db), [].
        repeat split; try assumption.
        repeat constructor; eauto using succeeds_Ok.
    + split; [reflexivity|]. split; [exact Hno|].
      exists [], PING, [SELECT db].
      repeat split; try assumption. constructor.
Qed.

(** ** The reconnect loop *)

Section ReconnectLoop.

Lemma Connect_fails (out : RedisOutput) (d : result Conn) :
  attempt_fails out d ->
  exists e, Connect out d = (Some e, set_Conn out None, attempt_trace out d).
Proof.
  unfold attempt_fails, attempt, attempt_trace, Connect.
  destruct (RedisConnect out (Db out) d) as [[c|e] tr]; simpl;
    [discriminate|]. intros _. now exists e.
Qed.

Lemma Connect_succeeds (out : RedisOutput) (d : result Conn) (conn : Conn) :
  attempt out d = Ok conn ->
  Connect out d
  = (None, set_connected (set_Conn out (Some conn)) true, attempt_trace out d).
Proof.
  unfold attempt, attempt_trace, Connect.
  destruct (RedisConnect out (Db out) d) as [[c|e] tr]; simpl;
    [|discriminate]. now intros [= ->].
Qed.

Lemma Reconnect_all_fail (out : RedisOutput) (fails : list (result Conn)) :
  Forall (attempt_fails out) fails ->
  Reconnect out fails
  = (Loops, after_failures out fails, failed_attempts_trace out fails, []).
Proof.
  revert out. induction fails as [|d fails IH]; intros out Hall;
    [reflexivity|].
  apply Forall_cons in Hall as [Hd Hall].
  destruct (Connect_fails out d Hd) as [e He].
  cbn [Reconnect]. rewrite He.
  rewrite (IH (set_Conn out None)) by exact Hall.
  cbn [failed_attempts_trace flat_map after_failures].
  rewrite <- app_assoc. simpl. destruct fails; reflexivity.
Qed.

Lemma Reconnect_first_success (out : RedisOutput)
  (fails : list (result Conn)) (d : result Conn) (conn : Conn)
  (rest : list (result Conn)) :
  Forall (attempt_fails out) fails ->
  attempt out d = Ok conn ->
  Reconnect out (fails ++ d :: rest)
  = (Returns tt, set_connected (set_Conn out (Some conn)) true,
     failed_attempts_trace out fails ++ attempt_trace out d, rest).
Proof.
  revert out. induction fails as [|f fails IH]; intros out Hall Hd.
  - cbn [app Reconnect]. now rewrite (Connect_succeeds out d conn Hd).
  - apply Forall_cons in Hall as [Hf Hall].
    destruct (Connect_fails out f Hf) as [e He].
    cbn [app Reconnect]. rewrite He.
    rewrite (IH (set_Conn out None)) by assumption.
    cbn [failed_attempts_trace flat_map]. rewrite <- !app_assoc. reflexivity.
Qed.

Lemma attempt_trace_no_sleep (out : RedisOutput) (d : result Conn) :
  count_eff is_sleep (attempt_trace out d) = 0%nat.
Proof.
  unfold attempt_trace, RedisConnect. destruct d as [conn|e]; [|reflexivity].
  destruct (Nat.ltb 0 (String.length (Password out)));
    [destruct (conn_do conn (AUTH (Password out)))|];
    try reflexivity;
    (destruct (conn_do conn PING); [|reflexivity]);
    destruct (conn_do conn (SELECT (Db out))); reflexivity.
Qed.

Lemma count_eff_app (p : Effect -> bool) (t1 t2 : trace) :
  count_eff p (t1 ++ t2) = (count_eff p t1 + count_eff p t2)%nat.
Proof. unfold count_eff. now rewrite List.filter_app, length_app. Qed.

Lemma failed_attempts_sleeps (out : RedisOutput) (fails : list (result Conn)) :
  count_eff is_sleep (failed_attempts_trace out fails) = length fails.
Proof.
  induction fails as [|d fails IH]; [reflexivity|].
  cbn [failed_attempts_trace flat_map]. rewrite !count_eff_app.
  rewrite attempt_trace_no_sleep. fold (failed_attempts_trace out fails).
  rewrite IH. reflexivity.
Qed.

End ReconnectLoop.

(** C5: an invocation of the reconnect loop makes one connect attempt after
    the other, sleeps ReconnectInterval after each failed one, is still in
    the loop as long as every attempt has failed, and returns at the first
    attempt that succeeds, leaving that attempt's handle in the output with
    connected set; later answers of the network are not consumed. *)
Theorem C5_reconnect_until_success (out : RedisOutput)
  (fails : list (result Conn)) (d : result Conn) (conn : Conn)
  (rest : list (result Conn)) :
  Forall (attempt_fails out) fails ->
  attempt out d = Ok conn ->
  let tr_fail := failed_attempts_trace out fails in
  let '(fin, out', tr, unused) := Reconnect out (fails ++ d :: rest) in
  fst (fst (fst (Reconnect out fails))) = Loops
  /\ snd (fst (Reconnect out fails)) = tr_fail
  /\ count_eff is_sleep tr_fail = length fails
  /\ count_eff is_dial tr_fail = length fails
  /\ fin = Returns tt
  /\ RConn out' = Some conn
  /\ connected out' = true
  /\ out' = set_connected (set_Conn out (Some conn)) true
  /\ tr = tr_fail ++ attempt_trace out d
  /\ unused = rest.
Proof.
  intros Hall Hd tr_fail.
  rewrite (Reconnect_first_success out fails d conn rest Hall Hd).
  rewrite (Reconnect_all_fail out fails Hall). simpl.
  repeat split.
  - apply failed_attempts_sleeps.
  - subst tr_fail. clear Hall. induction fails as [|f fails IH];
      [reflexivity|].
    cbn [failed_attempts_trace flat_map]. rewrite !count_eff_app.
    fold (failed_attempts_trace out fails). rewrite IH.
    unfold attempt_trace. rewrite RedisConnect_dials_once. reflexivity.
Qed.

(** ** The delivery worker *)

Section DeliveryWorker.

Lemma wrap64_small (z : Z) : in_int64 z -> wrap64 z = z.
Proof.
  unfold in_int64, int64_min, int64_max, wrap64. intros H.
  rewrite Z.mod_small by lia. lia.
Qed.

Lemma worker_run_app (w : Worker) (l1 l2 : list Event) :
  worker_run w (l1 ++ l2)
  = then_run (worker_run w l1) (fun w' => worker_run w' l2).
Proof.
  revert w. induction l1 as [|ev l1 IH]; intros w; simpl.
  - now destruct (worker_run w l2).
  - destruct (worker_turn w ev) as [w1 tr1| |]; try reflexivity.
    rewrite IH. destruct (worker_run w1 l1) as [w2 tr2| |]; simpl;
      try reflexivity.
    destruct (worker_run w2 l2); simpl; now rewrite ?app_assoc.
Qed.

Lemma worker_run_pipelined (msgs : list RedisQueueMsg) (w : Worker)
  (conn : Conn) :
  flush_immediatelly (w_out w) = false ->
  connected (w_out w) = true ->
  RConn (w_out w) = Some conn ->
  0 <= w_pending w ->
  w_pending w + Z.of_nat (length msgs) <= int64_max ->
  worker_run w (sent_ok msgs)
  = Continue
      (MkWorker (w_out w) (w_pending w + Z.of_nat (length msgs)) (w_ticker w))
      (map (fun m => ESend (conn_id conn) (worker_command (w_out w) m)) msgs).
Proof.
  revert w. induction msgs as [|m msgs IH]; intros w Hfl Hc Hconn H0 Hmax.
  - simpl. rewrite Z.add_0_r. now destruct w.
  - cbn [sent_ok map worker_run worker_turn]. rewrite Hc, Hconn, Hfl.
    cbn [negb]. fold (sent_ok msgs).
    assert (Hw : wrap64 (w_pending w + 1) = w_pending w + 1).
    { apply wrap64_small. unfold in_int64, int64_min, int64_max in *.
      cbn [length] in Hmax. lia. }
    rewrite Hw. cbn [length] in Hmax.
    rewrite IH; cbn [w_out w_pending w_ticker]; try assumption; try lia.
    replace (w_pending w + Z.of_nat (length (m :: msgs)))
      with (w_pending w + 1 + Z.of_nat (length msgs))
      by (cbn [length]; lia).
    reflexivity.
Qed.

Lemma worker_run_immediate (msgs : list RedisQueueMsg) (w : Worker)
  (conn : Conn) :
  flush_immediatelly (w_out w) = true ->
  connected (w_out w) = true ->
  RConn (w_out w) = Some conn ->
  worker_run w (sent_ok msgs)
  = Continue w
      (map (fun m => EDo (conn_id conn) (worker_command (w_out w) m)) msgs).
Proof.
  induction msgs as [|m msgs IH]; intros Hfl Hc Hconn; [reflexivity|].
  cbn [sent_ok map worker_run worker_turn]. rewrite Hc, Hconn, Hfl.
  cbn [negb]. fold (sent_ok msgs).
  replace (MkWorker (w_out w) (w_pending w) (w_ticker w)) with w
    by now destruct w.
  now rewrite IH.
Qed.

End DeliveryWorker.

(** C4: a message taken from the queue while connected is false is dropped:
    the turn issues no command, in immediate and in batched mode alike, and
    leaves the worker as it was, so nothing is kept of the message. *)
Theorem C4_unhealthy_discards (w : Worker) (queueMsg : RedisQueueMsg)
  (answer : option error) (evs : list (RedisQueueMsg * option error)) :
  connected (w_out w) = false ->
  worker_turn w (QueueMsg queueMsg answer) = Continue w []
  /\ worker_run w (map (fun '(m, a) => QueueMsg m a) evs) = Continue w [].
Proof.
  intros Hc. split.
  - unfold worker_turn. now rewrite Hc.
  - induction evs as [|[m a] evs IH]; [reflexivity|].
    cbn [map worker_run worker_turn]. rewrite Hc. cbn [negb].
    now rewrite IH.
Qed.

(** ** Concrete runs *)

Example initialised_example :
  Init zero_RedisOutput example_config 0 [Ok (good_conn 1)]
  = (Returns None, initialised example_config,
     [EDial "localhost:6379" 5000000000; EDo 1 PING; EDo 1 (SELECT 0);
      EGo GoSendMessages])
  /\ connected (initialised example_config) = true
  /\ FlushInterval (initialised example_config) = 1000000000
  /\ TopologyExpire (initialised example_config) = 15000000000
  /\ ReconnectInterval (initialised example_config) = 1000000000
  /\ DbTopology (initialised example_config) = 1
  /\ Index (initialised example_config) = "packetbeat".
Proof. vm_compute. repeat split. Qed.

Lemma C4_unhealthy_discards_witness :
  let w := MkWorker (unhealthy (initialised example_config)) 0 true in
  let evs := [(example_msg "e1", None); (example_msg "e2", Some "EOF")] in
  connected (w_out w) = false
  /\ worker_turn w (QueueMsg (example_msg "e0") None) = Continue w []
  /\ worker_run w (map (fun '(m, a) => QueueMsg m a) evs) = Continue w [].
Proof.
  intros w evs. split; [reflexivity|].
  exact (C4_unhealthy_discards w (example_msg "e0") None evs eq_refl).
Defined.

Lemma C5_reconnect_until_success_witness :
  let out := unhealthy (initialised example_config) in
  let fails := [Fail "connection refused"; Ok (no_ping_conn 2)] in
  let d := Ok (good_conn 3) in
  let rest := [Fail "not dialled"] in
  Forall (attempt_fails out) fails
  /\ attempt out d = Ok (good_conn 3)
  /\ let tr_fail := failed_attempts_trace out fails in
     let '(fin, out', tr, unused) := Reconnect out (fails ++ d :: rest) in
     fst (fst (fst (Reconnect out fails))) = Loops
     /\ snd (fst (Reconnect out fails)) = tr_fail
     /\ count_eff is_sleep tr_fail = length fails
     /\ count_eff is_dial tr_fail = length fails
     /\ fin = Returns tt
     /\ RConn out' = Some (good_conn 3)
     /\ connected out' = true
     /\ out' = set_connected (set_Conn out (Some (good_conn 3))) true
     /\ tr = tr_fail ++ attempt_trace out d
     /\ unused = rest.
Proof.
  intros out fails d rest.
  assert (H1 : Forall (attempt_fails out) fails)
    by (repeat constructor).
  assert (H2 : attempt out d = Ok (good_conn 3)) by reflexivity.
  split; [exact H1|]. split; [exact H2|].
  exact (C5_reconnect_until_success out fails d (good_conn 3) rest H1 H2).
Defined.

Example reconnect_example :
  Reconnect (unhealthy (initialised example_config))
    [Fail "connection refused"; Ok (no_ping_conn 2); Ok (good_conn 3);
     Fail "not dialled"]
  = (Returns tt,
     set_connected
       (set_Conn (unhealthy (initialised example_config))
          (Some (good_conn 3))) true,
     [EDial "localhost:6379" 5000000000; ESleep 1000000000;
      EDial "localhost:6379" 5000000000; EDo 2 PING; ESleep 1000000000;
      EDial "localhost:6379" 5000000000; EDo 3 PING; EDo 3 (SELECT 0)],
     [Fail "not dialled"]).
Proof. reflexivity. Qed.

(** ** The Pending-Send Counter *)

Example one_pending_reached :
  worker_start (initialised example_config)
  = Some (MkWorker (initialised example_config) 0 true)
  /\ worker_turn (MkWorker (initialised example_config) 0 true)
       (QueueMsg (example_msg "e1") None)
     = Continue one_pending [ESend 1 (RPUSH "packetbeat" "e1")].
Proof. split; reflexivity. Qed.

(** C2, as stated, fails: a flush whose acknowledgement is an error still
    resets the counter.  One message is pending; the tick flushes, [Receive]
    answers with an error, and the counter is zero afterwards while the
    connection is marked unhealthy. *)
Lemma C2_failed_flush_resets_counter :
  w_pending one_pending = 1
  /\ worker_turn one_pending (FlushTick (Some "EOF"))
     = Continue (MkWorker (unhealthy (initialised example_config)) 0 true)
         [EFlush 1; EReceive 1; EGo GoReconnect]
  /\ ~ (forall w' tr,
          worker_turn one_pending (FlushTick (Some "EOF")) = Continue w' tr ->
          w_pending w' = w_pending one_pending).
Proof.
  split; [reflexivity|]. split; [reflexivity|].
  intros H. specialize (H _ _ eq_refl). discriminate H.
Qed.

(** C2, amended: in batched mode every pipelined send adds one to the
    counter, whether or not the send reports an error; a tick flushes
    exactly when the counter is positive; after a flush the counter is zero,
    whether the acknowledgement was read or an error came back, and in the
    latter case the connection is marked unhealthy and a reconnect is
    started; a dropped message and a tick on a zero counter leave the
    counter as it is. *)
Theorem C2_pending_counter (w : Worker) (conn : Conn)
  (queueMsg : RedisQueueMsg) (answer : option error) :
  flush_immediatelly (w_out w) = false ->
  w_ticker w = true ->
  RConn (w_out w) = Some conn ->
  0 <= w_pending w < int64_max ->
  let out := w_out w in
  let c := conn_id conn in
  let out_after := match answer with
                   | Some _ => set_connected out false
                   | None => out
                   end in
  let spawned := match answer with
                 | Some _ => [EGo GoReconnect]
                 | None => []
                 end in
  (connected out = true ->
   worker_turn w (QueueMsg queueMsg answer)
   = Continue (MkWorker out_after (w_pending w + 1) true)
       (ESend c (worker_command out queueMsg) :: spawned))
  /\ (connected out = false ->
      worker_turn w (QueueMsg queueMsg answer) = Continue w [])
  /\ (w_pending w = 0 ->
      worker_turn w (FlushTick answer) = Continue w [])
  /\ (0 < w_pending w ->
      worker_turn w (FlushTick answer)
      = Continue (MkWorker out_after 0 true)
          ([EFlush c; EReceive c] ++ spawned)).
Proof.
  intros Hfl Htick Hconn Hp out c out_after spawned.
  subst out c out_after spawned.
  unfold worker_turn. rewrite Hfl, Htick, Hconn. cbn [negb].
  assert (Hw : wrap64 (w_pending w + 1) = w_pending w + 1).
  { apply wrap64_small. unfold in_int64, int64_min, int64_max in *. lia. }
  rewrite Hw. repeat split.
  - intros ->. cbn [negb]. now destruct answer.
  - intros ->. reflexivity.
  - intros H0. rewrite H0. reflexivity.
  - intros Hpos. apply Z.ltb_lt in Hpos. rewrite Hpos. now destruct answer.
Qed.

Lemma C2_pending_counter_witness :
  let w := one_pending in
  let out := w_out w in
  let answer : option error := Some "EOF" in
  flush_immediatelly (w_out w) = false
  /\ w_ticker w = true
  /\ RConn (w_out w) = Some (good_conn 1)
  /\ 0 <= w_pending w < int64_max
  /\ (connected out = true ->
      worker_turn w (QueueMsg (example_msg "e2") answer)
      = Continue (MkWorker (set_connected out false) (w_pending w + 1) true)
          [ESend 1 (worker_command out (example_msg "e2")); EGo GoReconnect])
  /\ (connected out = false ->
      worker_turn w (QueueMsg (example_msg "e2") answer) = Continue w [])
  /\ (w_pending w = 0 ->
      worker_turn w (FlushTick answer) = Continue w [])
  /\ (0 < w_pending w ->
      worker_turn w (FlushTick answer)
      = Continue (MkWorker (set_connected out false) 0 true)
          [EFlush 1; EReceive 1; EGo GoReconnect]).
Proof.
  intros w out answer.
  assert (Hp : 0 <= w_pending w < int64_max) by (vm_compute; split; congruence).
  split; [reflexivity|]. split; [reflexivity|]. split; [reflexivity|].
  split; [exact Hp|].
  exact (C2_pending_counter w (good_conn 1) (example_msg "e2") answer
           eq_refl eq_refl eq_refl Hp).
Defined.

(** ** What [Init] leaves behind *)

Section InitFacts.

Lemma Reconnect_cases (out : RedisOutput) (dials : list (result Conn)) :
  (Forall (attempt_fails out) dials
   /\ Reconnect out dials
      = (Loops, after_failures out dials, failed_attempts_trace out dials, []))
  \/ (exists fails d conn rest,
        dials = fails ++ d :: rest
        /\ Forall (attempt_fails out) fails
        /\ attempt out d = Ok conn
        /\ Reconnect out dials
           = (Returns tt, set_connected (set_Conn out (Some conn)) true,
              failed_attempts_trace out fails ++ attempt_trace out d, rest)).
Proof.
  assert (Hsplit : Forall (attempt_fails out) dials
                   \/ exists fails d conn rest,
                        dials = fails ++ d :: rest
                        /\ Forall (attempt_fails out) fails
                        /\ attempt out d = Ok conn).
  { induction dials as [|d dials IH]; [left; constructor|].
    destruct (attempt out d) as [conn|e] eqn:Hd.
    - right. exists [], d, conn, dials. repeat split; [constructor|exact Hd].
    - assert (Hf : attempt_fails out d)
        by (unfold attempt_fails; now rewrite Hd).
      destruct IH as [IH|(fails & d' & conn & rest & -> & Hall & Hd')].
      + left. now constructor.
      + right. exists (d :: fails), d', conn, rest.
        repeat split; [now constructor|exact Hd']. }
  destruct Hsplit as [Hall|(fails & d & conn & rest & -> & Hall & Hd)].
  - left. split; [exact Hall|]. now apply Reconnect_all_fail.
  - right. exists fails, d, conn, rest. repeat split; try assumption.
    now apply Reconnect_first_success.
Qed.

Lemma Init_returns_nil (out0 : RedisOutput) (config : Config) (te : Z)
  (dials : list (result Conn)) (out : RedisOutput) (tr : trace) :
  Init out0 config te dials = (Returns None, out, tr) ->
  exists t conn,
    parse_DataType (cfg_DataType config) = Some t
    /\ out = set_connected
               (set_Conn (Init_before_connect out0 config te t) (Some conn))
               true.
Proof.
  unfold Init. destruct (parse_DataType (cfg_DataType config)) as [t|];
    [|discriminate].
  fold (Init_before_connect out0 config te t).
  destruct (Reconnect_cases (Init_before_connect out0 config te t) dials)
    as [[_ ->]|(fails & d & conn & rest & _ & _ & _ & ->)];
    [discriminate|].
  intros [= <- _]. now exists t, conn.
Qed.

End InitFacts.

(** ** Flush modes *)

(** C3, as stated, fails at the interval 0, which is not negative: [Init]
    stores 0 ms, not 1000 ms, does not select flushing on each push, and
    the worker it starts cannot create its ticker, so nothing is pipelined. *)
Lemma C3_zero_interval_counterexample :
  let config := with_FlushInterval example_config (Some 0) in
  let out := initialised config in
  Init zero_RedisOutput config 0 [Ok (good_conn 1)]
  = (Returns None, out,
     [EDial "localhost:6379" 5000000000; EDo 1 PING; EDo 1 (SELECT 0);
      EGo GoSendMessages])
  /\ flush_immediatelly out = false
  /\ FlushInterval out = 0
  /\ FlushInterval out <> 1000 * Millisecond
  /\ worker_start out = None.
Proof. vm_compute. repeat split; congruence. Qed.

(** C3, amended: a negative interval selects flushing on each push: no
    ticker, and each of N messages is sent with its own synchronous command.
    An unset interval gives 1000 ms and a positive interval of n ms gives
    n ms; in both cases the worker runs a ticker, each message is
    pipelined, and the tick after N >= 1 messages makes exactly one flush
    with one acknowledgement read and zeroes the counter. *)
Theorem C3_flush_modes (out0 : RedisOutput) (config : Config) (te : Z)
  (dials : list (result Conn)) (out : RedisOutput) (tr0 : trace)
  (msgs : list RedisQueueMsg) :
  flush_immediatelly out0 = false ->
  Init out0 config te dials = (Returns None, out, tr0) ->
  Z.of_nat (length msgs) <= int64_max ->
  exists conn,
    RConn out = Some conn
    /\ match configured_interval config with
       | None =>
           flush_immediatelly out = true
           /\ worker_start out = Some (MkWorker out 0 false)
           /\ (forall a, worker_turn (MkWorker out 0 false) (FlushTick a)
                         = NoSuchEvent)
           /\ worker_run (MkWorker out 0 false) (sent_ok msgs)
              = Continue (MkWorker out 0 false)
                  (map (fun m => EDo (conn_id conn) (worker_command out m))
                     msgs)
       | Some n =>
           0 < n <= max_Milliseconds ->
           flush_immediatelly out = false
           /\ FlushInterval out = n * Millisecond
           /\ worker_start out = Some (MkWorker out 0 true)
           /\ worker_run (MkWorker out 0 true) (sent_ok msgs)
              = Continue (MkWorker out (Z.of_nat (length msgs)) true)
                  (map (fun m => ESend (conn_id conn) (worker_command out m))
                     msgs)
           /\ (msgs <> [] ->
               worker_run (MkWorker out 0 true)
                 (sent_ok msgs ++ [FlushTick None])
               = Continue (MkWorker out 0 true)
                   (map (fun m => ESend (conn_id conn) (worker_command out m))
                      msgs
                    ++ [EFlush (conn_id conn); EReceive (conn_id conn)]))
       end.
Proof.
  intros Hfl0 Hinit Hlen.
  apply Init_returns_nil in Hinit as (t & conn & _ & ->).
  exists conn. split; [reflexivity|].
  unfold configured_interval.
  set (out := set_connected _ true).
  assert (Himm : flush_immediatelly out
                 = match cfg_FlushInterval config with
                   | None => false
                   | Some n => if n <? 0 then true else false
                   end).
  { subst out. cbn. rewrite Hfl0. now destruct (cfg_FlushInterval config). }
  assert (Hint : FlushInterval out
                 = match cfg_FlushInterval config with
                   | None => duration_mul 1000 Millisecond
                   | Some n => if n <? 0 then duration_mul 1000 Millisecond
                               else duration_mul n Millisecond
                   end) by reflexivity.
  assert (Hc : connected out = true) by reflexivity.
  assert (Hconn : RConn out = Some conn) by reflexivity.
  clearbody out.
  assert (Hpipe : forall n, 0 < n <= max_Milliseconds ->
            flush_immediatelly out = false ->
            FlushInterval out = duration_mul n Millisecond ->
            flush_immediatelly out = false
            /\ FlushInterval out = n * Millisecond
            /\ worker_start out = Some (MkWorker out 0 true)
            /\ worker_run (MkWorker out 0 true) (sent_ok msgs)
               = Continue (MkWorker out (Z.of_nat (length msgs)) true)
                   (map (fun m => ESend (conn_id conn) (worker_command out m))
                      msgs)
            /\ (msgs <> [] ->
                worker_run (MkWorker out 0 true)
                  (sent_ok msgs ++ [FlushTick None])
                = Continue (MkWorker out 0 true)
                    (map (fun m => ESend (conn_id conn)
                                     (worker_command out m)) msgs
                     ++ [EFlush (conn_id conn); EReceive (conn_id conn)]))).
  { intros n Hn Hf Hi.
    assert (Hd : duration_mul n Millisecond = n * Millisecond).
    { apply wrap64_small.
      unfold in_int64, int64_min, int64_max, max_Milliseconds, Millisecond
        in *. lia. }
    rewrite Hd in Hi.
    assert (Hrun : worker_run (MkWorker out 0 true) (sent_ok msgs)
               = Continue (MkWorker out (Z.of_nat (length msgs)) true)
                   (map (fun m => ESend (conn_id conn) (worker_command out m))
                      msgs)).
    { rewrite (worker_run_pipelined msgs (MkWorker out 0 true) conn);
        cbn [w_out w_pending w_ticker]; try assumption; try lia.
      reflexivity. }
    split; [exact Hf|]. split; [exact Hi|]. split; [|split; [exact Hrun|]].
    - unfold worker_start. rewrite Hf, Hi. cbn [negb].
      destruct (Z.leb_spec (n * Millisecond) 0) as [Hle|_]; [|reflexivity].
      unfold Millisecond in Hle. lia.
    - intros Hne. rewrite worker_run_app, Hrun.
      cbn [then_run worker_run worker_turn w_ticker w_pending w_out negb].
      destruct msgs as [|m msgs']; [congruence|].
      replace (0 <? Z.of_nat (length (m :: msgs'))) with true
        by (symmetry; apply Z.ltb_lt; cbn [length]; lia).
      rewrite Hconn. now rewrite app_nil_r. }
  destruct (cfg_FlushInterval config) as [n|].
  - destruct (n <? 0) eqn:Hneg.
    + split; [exact Himm|]. split; [|split].
      * unfold worker_start. now rewrite Himm.
      * intros a. reflexivity.
      * now apply worker_run_immediate.
    + intros Hn. now apply Hpipe.
  - intros Hn. now apply Hpipe.
Qed.

Lemma C3_flush_modes_witness :
  let config := with_FlushInterval example_config (Some 1000) in
  let out := initialised config in
  let tr0 := [EDial "localhost:6379" 5000000000; EDo 1 PING;
              EDo 1 (SELECT 0); EGo GoSendMessages] in
  flush_immediatelly zero_RedisOutput = false
  /\ Init zero_RedisOutput config 0 [Ok (good_conn 1)]
     = (Returns None, out, tr0)
  /\ Z.of_nat (length five_msgs) <= int64_max
  /\ exists conn,
       RConn out = Some conn
       /\ (0 < 1000 <= max_Milliseconds ->
           flush_immediatelly out = false
           /\ FlushInterval out = 1000 * Millisecond
           /\ worker_start out = Some (MkWorker out 0 true)
           /\ worker_run (MkWorker out 0 true) (sent_ok five_msgs)
              = Continue (MkWorker out (Z.of_nat (length five_msgs)) true)
                  (map (fun m => ESend (conn_id conn) (worker_command out m))
                     five_msgs)
           /\ (five_msgs <> [] ->
               worker_run (MkWorker out 0 true)
                 (sent_ok five_msgs ++ [FlushTick None])
               = Continue (MkWorker out 0 true)
                   (map (fun m => ESend (conn_id conn) (worker_command out m))
                      five_msgs
                    ++ [EFlush (conn_id conn); EReceive (conn_id conn)]))).
Proof.
  intros config out tr0.
  assert (H1 : Init zero_RedisOutput config 0 [Ok (good_conn 1)]
               = (Returns None, out, tr0)) by reflexivity.
  assert (H2 : Z.of_nat (length five_msgs) <= int64_max)
    by (vm_compute; congruence).
  split; [reflexivity|]. split; [exact H1|]. split; [exact H2|].
  exact (C3_flush_modes zero_RedisOutput config 0 [Ok (good_conn 1)] out tr0
           five_msgs eq_refl H1 H2).
Defined.

(** The two examples of the specification: five messages with the interval
    -1 and with the interval 1000. *)
Example flush_each_push_example :
  let out := initialised (with_FlushInterval example_config (Some (-1))) in
  worker_start out = Some (MkWorker out 0 false)
  /\ worker_run (MkWorker out 0 false) (sent_ok five_msgs)
     = Continue (MkWorker out 0 false)
         [EDo 1 (RPUSH "packetbeat" "e1"); EDo 1 (RPUSH "packetbeat" "e2");
          EDo 1 (RPUSH "packetbeat" "e3"); EDo 1 (RPUSH "packetbeat" "e4");
          EDo 1 (RPUSH "packetbeat" "e5")].
Proof. split; reflexivity. Qed.

Example one_aggregate_flush_example :
  let out := initialised (with_FlushInterval example_config (Some 1000)) in
  worker_start out = Some (MkWorker out 0 true)
  /\ worker_run (MkWorker out 0 true) (sent_ok five_msgs ++ [FlushTick None])
     = Continue (MkWorker out 0 true)
         [ESend 1 (RPUSH "packetbeat" "e1"); ESend 1 (RPUSH "packetbeat" "e2");
          ESend 1 (RPUSH "packetbeat" "e3"); ESend 1 (RPUSH "packetbeat" "e4");
          ESend 1 (RPUSH "packetbeat" "e5"); EFlush 1; EReceive 1].
Proof. split; reflexivity. Qed.

(** ** Topology publish *)

Section Publish.







Variables (out : RedisOutput) (name : string) (localAddrs : list string).
Variables (conn : Conn) (t_conn : trace).




End Publish.



(** The example of the specification: with an expiration of 15, two
    Publishes in a row both set 15. *)
Example publish_twice_example :
  let out := initialised example_config in
  let conn := registry_conn 4 example_registry in
  let first := PublishIPs out "A" ["10.0.0.1"; "10.0.0.2"] (Ok conn) in
  let second :=
    PublishIPs (snd (fst first)) "A" ["10.0.0.1"; "10.0.0.2"]
      (Ok (registry_conn 5 example_registry)) in
  snd first
  = [EDial "localhost:6379" 5000000000; EDo 4 PING; EDo 4 (SELECT 1);
     EDo 4 (HSET "A" "ipaddrs" "10.0.0.1,10.0.0.2"); EDo 4 (EXPIRE "A" 15);
     EDo 4 (KEYS "*"); EDo 4 (HGET "A" "ipaddrs"); EDo 4 (HGET "B" "ipaddrs");
     EClose 4]
  /\ snd second
     = [EDial "localhost:6379" 5000000000; EDo 5 PING; EDo 5 (SELECT 1);
        EDo 5 (HSET "A" "ipaddrs" "10.0.0.1,10.0.0.2"); EDo 5 (EXPIRE "A" 15);
        EDo 5 (KEYS "*"); EDo 5 (HGET "A" "ipaddrs");
        EDo 5 (HGET "B" "ipaddrs"); EClose 5]
  /\ GetNameByIP (snd (fst second)) "10.0.0.2" = "A".
Proof. vm_compute. repeat split. Qed.

(** ** The outcome of [Init] *)

Section InitOutcome.

Lemma parse_DataType_spec (s : string) :
  match parse_DataType s with
  | None => s <> "" /\ s <> "list" /\ s <> "channel"
  | Some RedisListType => s = "" \/ s = "list"
  | Some RedisChannelType => s = "channel"
  end.
Proof.
  unfold parse_DataType.
  destruct (String.eqb_spec s "") as [->|H1]; [now left|].
  destruct (String.eqb_spec s "list") as [->|H2]; [now right|].
  destruct (String.eqb_spec s "channel") as [->|H3]; [reflexivity|].
  simpl. auto.
Qed.

Lemma Init_cases (out0 : RedisOutput) (config : Config) (te : Z)
  (dials : list (result Conn)) :
  match parse_DataType (cfg_DataType config) with
  | None =>
      Init out0 config te dials
      = (Returns (Some "Bad Redis data type"), Init_fields out0 config te, [])
  | Some t =>
      let o := Init_before_connect out0 config te t in
      (Forall (attempt_fails o) dials
       /\ Init out0 config te dials
          = (Loops, after_failures o dials, failed_attempts_trace o dials))
      \/ (exists fails d conn rest,
            dials = fails ++ d :: rest
            /\ Forall (attempt_fails o) fails
            /\ attempt o d = Ok conn
            /\ Init out0 config te dials
               = (Returns None, set_connected (set_Conn o (Some conn)) true,
                  (failed_attempts_trace o fails ++ attempt_trace o d)
                  ++ [EGo GoSendMessages]))
  end.
Proof.
  unfold Init. destruct (parse_DataType (cfg_DataType config)) as [t|];
    [|reflexivity].
  cbv zeta. fold (Init_before_connect out0 config te t).
  set (o := Init_before_connect out0 config te t).
  destruct (Reconnect_cases o dials)
    as [[Hall ->]|(fails & d & conn & rest & Hd & Hall & Hok & ->)].
  - left. now split.
  - right. now exists fails, d, conn, rest.
Qed.

End InitOutcome.

(** C8, as stated, fails: the configuration below has a valid data type and
    no flush interval at all, yet [Init] does not succeed on it: while the
    server refuses the connection, however often, [Init] has not returned. *)
Lemma C8_valid_config_init_loops :
  parse_DataType (cfg_DataType example_config) = Some RedisListType
  /\ cfg_FlushInterval example_config = None
  /\ forall n, fst (fst (Init zero_RedisOutput example_config 0 (refused n)))
               = Loops.
Proof.
  split; [reflexivity|]. split; [reflexivity|]. intros n.
  pose proof (Init_cases zero_RedisOutput example_config 0 (refused n)) as H.
  change (parse_DataType (cfg_DataType example_config))
    with (Some RedisListType) in H. cbv zeta in H.
  destruct H as [[_ ->]|(fails & d & conn & rest & Hd & _ & Hok & _)];
    [reflexivity|].
  exfalso.
  assert (Hin : d ∈ refused n).
  { rewrite Hd. apply elem_of_app. right. apply list_elem_of_here. }
  apply list_elem_of_In, repeat_spec in Hin. subst d. discriminate Hok.
Qed.

(** C8, amended: [Init] returns a configuration error exactly when the data
    type is none of unset, list and channel, and then it has made no
    connection attempt and started nothing.  The flush interval never makes
    it fail.  On every other configuration the documented defaults are in
    place and [Init] runs the reconnect loop: it returns nil, with the
    worker started last, exactly when one of the connect attempts succeeds,
    and is still in the loop while all of them have failed. *)
Theorem C8_init_outcome (out0 : RedisOutput) (config : Config) (te : Z)
  (dials : list (result Conn)) :
  let fin := fst (fst (Init out0 config te dials)) in
  let out := snd (fst (Init out0 config te dials)) in
  let tr := snd (Init out0 config te dials) in
  let invalid := cfg_DataType config <> ""
                 /\ cfg_DataType config <> "list"
                 /\ cfg_DataType config <> "channel" in
  (invalid <-> fin = Returns (Some "Bad Redis data type"))
  /\ (forall e, fin = Returns (Some e) -> invalid /\ tr = []
                /\ out = Init_fields out0 config te)
  /\ (~ invalid ->
      exists t, parse_DataType (cfg_DataType config) = Some t
        /\ let o := Init_before_connect out0 config te t in
           DataType out = t
           /\ sendingQueue out = Some (MkChan 1000 [])
           /\ (fin = Returns None
               <-> exists d, d ∈ dials /\ is_ok (attempt o d) = true)
           /\ (fin = Loops <-> Forall (attempt_fails o) dials)
           /\ (fin = Returns None ->
               connected out = true /\ is_Some (RConn out)
               /\ last tr = Some (EGo GoSendMessages)))
  /\ (cfg_Index config = "" -> Index out = "packetbeat")
  /\ (cfg_DbTopology config = 0 -> DbTopology out = 1)
  /\ (cfg_Timeout config = 0 -> Timeout out = 5 * Second)
  /\ (cfg_ReconnectInterval config = 0 -> ReconnectInterval out = 1 * Second)
  /\ (cfg_FlushInterval config = None -> FlushInterval out = 1000 * Millisecond)
  /\ (te = 0 -> TopologyExpire out = 15 * Second)
  /\ (cfg_DataType config = "" -> DataType out = RedisListType).
Proof.
  intros fin out tr invalid. subst fin out tr invalid.
  pose proof (Init_cases out0 config te dials) as H.
  pose proof (parse_DataType_spec (cfg_DataType config)) as Hp.
  destruct (parse_DataType (cfg_DataType config)) as [t|] eqn:Ht.
  - cbv zeta in H.
    set (o := Init_before_connect out0 config te t) in *.
    assert (Hvalid : ~ (cfg_DataType config <> ""
                        /\ cfg_DataType config <> "list"
                        /\ cfg_DataType config <> "channel")).
    { intros (H1 & H2 & H3). destruct t; [destruct Hp|]; contradiction. }
    assert (Hshape : exists c b,
               snd (fst (Init out0 config te dials))
               = set_connected (set_Conn o c) b).
    { destruct H as [[_ ->]|(fails & d & conn & rest & _ & _ & _ & ->)].
      - simpl. destruct dials; simpl.
        + exists (RConn o), (connected o). now destruct o.
        + exists None, (connected o). reflexivity.
      - now exists (Some conn), true. }
    destruct Hshape as (c & b & Hshape).
    assert (Hfields :
      (cfg_Index config = "" ->
       Index (snd (fst (Init out0 config te dials))) = "packetbeat")
      /\ (cfg_DbTopology config = 0 ->
          DbTopology (snd (fst (Init out0 config te dials))) = 1)
      /\ (cfg_Timeout config = 0 ->
          Timeout (snd (fst (Init out0 config te dials))) = 5 * Second)
      /\ (cfg_ReconnectInterval config = 0 ->
          ReconnectInterval (snd (fst (Init out0 config te dials)))
          = 1 * Second)
      /\ (cfg_FlushInterval config = None ->
          FlushInterval (snd (fst (Init out0 config te dials)))
          = 1000 * Millisecond)
      /\ (te = 0 ->
          TopologyExpire (snd (fst (Init out0 config te dials)))
          = 15 * Second)
      /\ (cfg_DataType config = "" ->
          DataType (snd (fst (Init out0 config te dials))) = RedisListType)).
    { rewrite Hshape. subst o. cbn.
      repeat split; intros E; rewrite ?E; try reflexivity.
      rewrite E in Ht. now injection Ht as <-. }
    split; [|split; [|split; [|exact Hfields]]].
    + split; [intros Hi; contradiction|].
      destruct H as [[_ ->]|(fails & d & conn & rest & _ & _ & _ & ->)];
        discriminate.
    + intros e He.
      destruct H as [[_ H]|(fails & d & conn & rest & _ & _ & _ & H)];
        rewrite H in He; discriminate.
    + intros _. exists t. split; [reflexivity|]. cbv zeta. fold o.
      split; [now rewrite Hshape|]. split; [now rewrite Hshape|].
      destruct H as [[Hall H]|(fails & d & conn & rest & Hd & Hall & Hok & H)];
        rewrite H; simpl.
      * split; [|split; [easy|discriminate]].
        split; [discriminate|]. intros (d & Hin & Hok).
        rewrite Forall_forall in Hall. specialize (Hall d Hin).
        unfold attempt_fails in Hall. congruence.
      * assert (Hex : exists d0, d0 ∈ dials /\ is_ok (attempt o d0) = true).
        { exists d. split; [|now rewrite Hok].
          rewrite Hd. apply elem_of_app. right. apply list_elem_of_here. }
        split; [easy|]. split.
        -- split; [discriminate|]. intros Hall'.
           destruct Hex as (d0 & Hin & Hok0).
           rewrite Forall_forall in Hall'. specialize (Hall' d0 Hin).
           unfold attempt_fails in Hall'. congruence.
        -- intros _. split; [reflexivity|]. split; [eauto|].
           apply last_snoc.
  - rewrite H. simpl.
    split; [easy|]. split; [intros e _; easy|]. split; [easy|].
    destruct Hp as (H1 & H2 & H3). cbn.
    repeat split; intros E; rewrite ?E; try reflexivity; contradiction.
Qed.

(** ** Concurrent reconnects *)

Section ConcurrentReconnect.

Lemma replacements_snoc (l : list Assignment) (a : Assignment) :
  replacements (l ++ [a])
  = replacements l ++ (if is_replacement a then [a] else []).
Proof. unfold replacements. now rewrite List.filter_app. Qed.

Lemma sys_inv_init (out : RedisOutput) (da db : list (result Conn)) :
  sys_inv (sys_init out da db).
Proof. split; [reflexivity|discriminate]. Qed.

Lemma sys_inv_step (s : Sys) (who : bool) :
  sys_inv s -> sys_inv (sys_step s who).
Proof.
  intros [Hlen Hlast]. destruct s as [out [pa da] [pb db] log].
  unfold sys_inv, finished_count, last_wins in *. simpl in *.
  destruct who; unfold sys_step, goro_step; simpl.
  - destruct pa as [|started [conn|e]|]; simpl.
    + destruct da as [|d da']; simpl; rewrite ?app_nil_r;
        [now split|].
      split; [exact Hlen|]. destruct (is_Finished pb); discriminate.
    + rewrite replacements_snoc, length_app. simpl.
      split; [simpl in Hlen; lia|].
      intros _. eexists _, conn. rewrite last_snoc. now repeat split.
    + rewrite replacements_snoc, app_nil_r. simpl.
      split; [exact Hlen|]. destruct (is_Finished pb); discriminate.
    + rewrite app_nil_r. now split.
  - destruct pb as [|started [conn|e]|]; simpl.
    + destruct db as [|d db']; simpl; rewrite ?app_nil_r;
        [now split|].
      split; [exact Hlen|]. destruct (is_Finished pa); discriminate.
    + rewrite replacements_snoc, length_app. simpl.
      split; [simpl in Hlen; lia|].
      intros _. eexists _, conn. rewrite last_snoc. now repeat split.
    + rewrite replacements_snoc, app_nil_r. simpl.
      split; [exact Hlen|]. destruct (is_Finished pa); discriminate.
    + rewrite app_nil_r. now split.
Qed.

Lemma sys_inv_run (schedule : list bool) (s : Sys) :
  sys_inv s -> sys_inv (sys_run s schedule).
Proof.
  revert s. induction schedule as [|who schedule IH]; intros s Hs;
    [exact Hs|].
  simpl. apply IH. now apply sys_inv_step.
Qed.

End ConcurrentReconnect.

(** The worker can have two reconnects under way at once: a failed send
    starts one, and the next tick, which still finds the message pending,
    fails on the same connection and starts another. *)
Example two_reconnects_spawned :
  worker_run (MkWorker (initialised example_config) 0 true)
    [QueueMsg (example_msg "e1") (Some "EOF"); FlushTick (Some "EOF")]
  = Continue (MkWorker (unhealthy (initialised example_config)) 0 true)
      [ESend 1 (RPUSH "packetbeat" "e1"); EGo GoReconnect;
       EFlush 1; EReceive 1; EGo GoReconnect].
Proof. reflexivity. Qed.

(** C9, as stated, fails: two reconnects start while the state is
    unhealthy; the first stores its handle and heals the state; the second
    then stores its own handle over the healthy one.  Both replaced the
    handle, and the second did so after the state was healed. *)
Lemma C9_both_replace_counterexample :
  let out := unhealthy (initialised example_config) in
  let s := sys_run (sys_init out [Ok (good_conn 2)] [Ok (good_conn 3)])
             [true; false; true; false] in
  connected out = false
  /\ s_log s = [MkAssignment true (Some (good_conn 2)) false false;
                MkAssignment false (Some (good_conn 3)) false true]
  /\ RConn (s_out s) = Some (good_conn 3)
  /\ ~ (forall a, a ∈ s_log s -> is_replacement a = true ->
                  a_connected_before a = false).
Proof.
  split; [reflexivity|]. split; [reflexivity|]. split; [reflexivity|].
  intros H.
  specialize (H (MkAssignment false (Some (good_conn 3)) false true)).
  assert (Hin : MkAssignment false (Some (good_conn 3)) false true
                ∈ [MkAssignment true (Some (good_conn 2)) false false;
                   MkAssignment false (Some (good_conn 3)) false true])
    by apply list_elem_of_further, list_elem_of_here.
  specialize (H Hin eq_refl). discriminate H.
Qed.

(** C9, amended: [Reconnect] has no guard.  A goroutine whose attempt
    succeeded stores its handle and sets connected whatever the state is at
    that moment.  When two invocations run concurrently and both have
    returned, each of them has replaced the handle once, and the output
    holds the handle of the one that assigned last, with connected set. *)
Theorem C9_last_assignment_wins (out : RedisOutput)
  (da db : list (result Conn)) (schedule : list bool) :
  let s := sys_run (sys_init out da db) schedule in
  g_phase (s_a s) = Finished ->
  g_phase (s_b s) = Finished ->
  length (replacements (s_log s)) = 2%nat
  /\ (exists a conn,
        last (s_log s) = Some a
        /\ a_stored a = Some conn
        /\ RConn (s_out s) = Some conn
        /\ connected (s_out s) = true)
  /\ (forall who o started conn rest,
        goro_step who o (MkGoro (Dialed started (Ok conn)) rest)
        = (set_connected (set_Conn o (Some conn)) true, MkGoro Finished rest,
           [MkAssignment who (Some conn) started (connected o)])).
Proof.
  intros s Ha Hb.
  destruct (sys_inv_run schedule _ (sys_inv_init out da db)) as [Hlen Hlast].
  fold s in Hlen, Hlast.
  assert (Hcount : finished_count s = 2%nat).
  { unfold finished_count. now rewrite Ha, Hb. }
  split; [now rewrite Hlen|]. split; [now apply Hlast|]. reflexivity.
Qed.

Lemma C9_last_assignment_wins_witness :
  let out := unhealthy (initialised example_config) in
  let da := [Fail "connection refused"; Ok (good_conn 2)] in
  let db := [Ok (good_conn 3)] in
  let schedule := [true; false; true; false; true; true] in
  let s := sys_run (sys_init out da db) schedule in
  g_phase (s_a s) = Finished
  /\ g_phase (s_b s) = Finished
  /\ length (replacements (s_log s)) = 2%nat
  /\ (exists a conn,
        last (s_log s) = Some a
        /\ a_stored a = Some conn
        /\ RConn (s_out s) = Some conn
        /\ connected (s_out s) = true)
  /\ (forall who o started conn rest,
        goro_step who o (MkGoro (Dialed started (Ok conn)) rest)
        = (set_connected (set_Conn o (Some conn)) true, MkGoro Finished rest,
           [MkAssignment who (Some conn) started (connected o)])).
Proof.
  intros out da db schedule s.
  split; [reflexivity|]. split; [reflexivity|].
  exact (C9_last_assignment_wins out da db schedule eq_refl eq_refl).
Defined.

(** In that run the first goroutine fails once, the second heals the state,
    and the first then dials again, succeeds and replaces the healthy
    handle. *)
Example reconnect_interleaving_example :
  let out := unhealthy (initialised example_config) in
  let s := sys_run
             (sys_init out [Fail "connection refused"; Ok (good_conn 2)]
                [Ok (good_conn 3)])
             [true; false; true; false; true; true] in
  s_log s = [MkAssignment true None false false;
             MkAssignment false (Some (good_conn 3)) false false;
             MkAssignment true (Some (good_conn 2)) true true]
  /\ RConn (s_out s) = Some (good_conn 2).
Proof. split; reflexivity. Qed.

(** ** Byte order utilities *)

Section ByteOrder.

Lemma byte_val_range (b : byte) : 0 <= byte_val b < 256.
Proof.
  unfold byte_val. pose proof (Byte.to_N_bounded b). lia.
Qed.

Lemma byte_val_of_Z (z : Z) : byte_val (byte_of_Z z) = z mod 256.
Proof.
  unfold byte_val, byte_of_Z.
  assert (Hr : 0 <= z mod 256 < 256) by (apply Z.mod_pos_bound; lia).
  destruct (Byte.of_N (Z.to_N (z mod 256))) as [b|] eqn:E.
  - apply Byte.to_of_N in E. rewrite E. lia.
  - exfalso. apply Byte.of_N_None_iff in E. lia.
Qed.

Lemma byte_of_Z_val (b : byte) : byte_of_Z (byte_val b) = b.
Proof.
  unfold byte_of_Z. pose proof (byte_val_range b) as Hr.
  rewrite Z.mod_small by exact Hr. unfold byte_val.
  rewrite N2Z.id. now rewrite Byte.of_to_N.
Qed.

(** Putting [lo], which fits [k] bits, below [hi] shifted by [k]. *)
Lemma lor_shiftl_add (hi lo k : Z) :
  0 <= k -> 0 <= lo < 2 ^ k ->
  Z.lor (Z.shiftl hi k) lo = hi * 2 ^ k + lo.
Proof.
  intros Hk Hlo. rewrite Z.shiftl_mul_pow2 by exact Hk.
  assert (Hland : Z.land (hi * 2 ^ k) lo = 0).
  { apply Z.bits_inj'. intros n Hn. rewrite Z.land_spec, Z.bits_0.
    destruct (Z.lt_ge_cases n k) as [Hlt|Hge].
    - rewrite Z.mul_pow2_bits_low by exact Hlt. reflexivity.
    - replace lo with (lo mod 2 ^ k) by (apply Z.mod_small; exact Hlo).
      rewrite Z.mod_pow2_bits_high by lia. apply andb_false_r. }
  rewrite <- (Z.lxor_lor _ _ Hland). now rewrite Z.add_nocarry_lxor.
Qed.

Lemma shift_byte_fits (v k w : Z) :
  0 <= v < 256 -> 0 <= k -> k + 8 <= w ->
  wrapu w (Z.shiftl v k) = v * 2 ^ k.
Proof.
  intros Hv Hk Hw. unfold wrapu. rewrite Z.shiftl_mul_pow2 by exact Hk.
  apply Z.mod_small. split; [apply Z.mul_nonneg_nonneg; lia|].
  replace w with (8 + k + (w - k - 8)) by lia.
  rewrite !Z.pow_add_r by lia.
  assert (0 < 2 ^ k) by (apply Z.pow_pos_nonneg; lia).
  assert (0 < 2 ^ (w - k - 8)) by (apply Z.pow_pos_nonneg; lia).
  change (2 ^ 8) with 256. nia.
Qed.

Lemma lookup_lt_None (b : list byte) (i : nat) :
  b !! i = None <-> (length b <= i)%nat.
Proof. apply lookup_ge_None. Qed.

End ByteOrder.

Section ByteOrderValues.

Lemma lor_low (a lo k : Z) :
  0 <= k -> 0 <= lo < 2 ^ k -> Z.lor (a * 2 ^ k) lo = a * 2 ^ k + lo.
Proof.
  intros Hk Hlo. rewrite <- Z.shiftl_mul_pow2 by exact Hk.
  rewrite lor_shiftl_add by assumption. now rewrite Z.shiftl_mul_pow2.
Qed.

(** The value of four bytes, the first the most significant. *)
Lemma lor_four (v0 v1 v2 v3 : Z) :
  0 <= v0 < 256 -> 0 <= v1 < 256 -> 0 <= v2 < 256 -> 0 <= v3 < 256 ->
  Z.lor
    (Z.lor
       (Z.lor (wrapu 32 (Z.shiftl v0 24)) (wrapu 32 (Z.shiftl v1 16)))
       (wrapu 32 (Z.shiftl v2 8)))
    v3
  = ((v0 * 256 + v1) * 256 + v2) * 256 + v3.
Proof.
  intros H0 H1 H2 H3.
  rewrite !shift_byte_fits by lia.
  rewrite (lor_low v0 (v1 * 2 ^ 16) 24) by lia.
  replace (v0 * 2 ^ 24 + v1 * 2 ^ 16) with ((v0 * 256 + v1) * 2 ^ 16) by lia.
  rewrite (lor_low _ (v2 * 2 ^ 8) 16) by lia.
  replace ((v0 * 256 + v1) * 2 ^ 16 + v2 * 2 ^ 8)
    with (((v0 * 256 + v1) * 256 + v2) * 2 ^ 8) by lia.
  rewrite (lor_low _ v3 8) by lia. lia.
Qed.

Lemma Ntohs_two (b0 b1 : byte) (rest : list byte) :
  Ntohs (b0 :: b1 :: rest) = Some (byte_val b0 * 256 + byte_val b1).
Proof.
  pose proof (byte_val_range b0). pose proof (byte_val_range b1).
  unfold Ntohs. simpl. rewrite shift_byte_fits by lia.
  rewrite (lor_low _ _ 8) by lia. do 2 f_equal.
Qed.

Lemma Ntohl_four (b0 b1 b2 b3 : byte) (rest : list byte) :
  Ntohl (b0 :: b1 :: b2 :: b3 :: rest)
  = Some (((byte_val b0 * 256 + byte_val b1) * 256 + byte_val b2) * 256
          + byte_val b3).
Proof.
  pose proof (byte_val_range b0). pose proof (byte_val_range b1).
  pose proof (byte_val_range b2). pose proof (byte_val_range b3).
  unfold Ntohl. simpl. f_equal. now apply lor_four.
Qed.

End ByteOrderValues.

(** X1: [Ntohs] panics exactly on a slice of fewer than two bytes; on any
    other slice it returns the 16-bit value whose high byte is the first
    byte and whose low byte is the second, whatever follows. *)
Theorem Ntohs_value (b : list byte) :
  (Ntohs b = None <-> (length b < 2)%nat)
  /\ forall b0 b1 rest, b = b0 :: b1 :: rest ->
       Ntohs b = Some (byte_val b0 * 256 + byte_val b1)
       /\ 0 <= byte_val b0 * 256 + byte_val b1 < 2 ^ 16.
Proof.
  split.
  - destruct b as [|b0 [|b1 rest]]; simpl; split; intros H;
      try reflexivity; try discriminate; try lia.
  - intros b0 b1 rest ->.
    pose proof (byte_val_range b0). pose proof (byte_val_range b1).
    split; [apply Ntohs_two|lia].
Qed.

Lemma Ntohs_value_witness :
  let b := [Byte.x1f; Byte.x90; Byte.xff] in
  b = Byte.x1f :: Byte.x90 :: [Byte.xff]
  /\ Ntohs b = Some (byte_val Byte.x1f * 256 + byte_val Byte.x90)
  /\ 0 <= byte_val Byte.x1f * 256 + byte_val Byte.x90 < 2 ^ 16.
Proof.
  intros b. split; [reflexivity|].
  exact (proj2 (Ntohs_value b) Byte.x1f Byte.x90 [Byte.xff] eq_refl).
Defined.

(** X2: [Ntohl] panics exactly on a slice of fewer than four bytes; on any
    other slice it returns the 32-bit value of the first four bytes, the
    first being the most significant. *)
Theorem Ntohl_value (b : list byte) :
  (Ntohl b = None <-> (length b < 4)%nat)
  /\ forall b0 b1 b2 b3 rest, b = b0 :: b1 :: b2 :: b3 :: rest ->
       Ntohl b
       = Some (((byte_val b0 * 256 + byte_val b1) * 256 + byte_val b2) * 256
               + byte_val b3)
       /\ 0 <= ((byte_val b0 * 256 + byte_val b1) * 256 + byte_val b2) * 256
               + byte_val b3 < 2 ^ 32.
Proof.
  split.
  - destruct b as [|b0 [|b1 [|b2 [|b3 rest]]]]; simpl; split; intros H;
      try reflexivity; try discriminate; try lia.
  - intros b0 b1 b2 b3 rest ->.
    pose proof (byte_val_range b0). pose proof (byte_val_range b1).
    pose proof (byte_val_range b2). pose proof (byte_val_range b3).
    split; [apply Ntohl_four|lia].
Qed.

Lemma Ntohl_value_witness :
  let b := [Byte.x0a; Byte.x00; Byte.x00; Byte.x02] in
  b = Byte.x0a :: Byte.x00 :: Byte.x00 :: Byte.x02 :: []
  /\ Ntohl b
     = Some (((byte_val Byte.x0a * 256 + byte_val Byte.x00) * 256
              + byte_val Byte.x00) * 256 + byte_val Byte.x02)
  /\ 0 <= ((byte_val Byte.x0a * 256 + byte_val Byte.x00) * 256
           + byte_val Byte.x00) * 256 + byte_val Byte.x02 < 2 ^ 32.
Proof.
  intros b. split; [reflexivity|].
  exact (proj2 (Ntohl_value b) Byte.x0a Byte.x00 Byte.x00 Byte.x02 []
           eq_refl).
Defined.

(** X3: [Htonl] reads its four bytes in the opposite order: it panics on
    fewer than four bytes and otherwise returns what [Ntohl] returns on the
    first four bytes reversed. *)
Theorem Htonl_reverses (b : list byte) :
  (Htonl b = None <-> (length b < 4)%nat)
  /\ Htonl b = (if decide (length b < 4)%nat then None
                else Ntohl (reverse (take 4 b))).
Proof.
  destruct b as [|b0 [|b1 [|b2 [|b3 rest]]]]; simpl;
    (split; [split; intros H; try reflexivity; try discriminate; lia
            |reflexivity]).
Qed.

(** X4: [Ntohll] panics exactly on a slice of fewer than eight bytes;
    otherwise its value is that of [Ntohl] on the first four bytes times
    2^32 plus that of [Ntohl] on the next four. *)
Theorem Ntohll_value (b : list byte) :
  (Ntohll b = None <-> (length b < 8)%nat)
  /\ forall hi lo, Ntohl (take 4 b) = Some hi ->
                   Ntohl (take 4 (drop 4 b)) = Some lo ->
       Ntohll b = Some (hi * 2 ^ 32 + lo) /\ 0 <= hi * 2 ^ 32 + lo < 2 ^ 64.
Proof.
  split.
  - destruct b as [|b0 [|b1 [|b2 [|b3 [|b4 [|b5 [|b6 [|b7 rest]]]]]]]];
      simpl; split; intros H; try reflexivity; try discriminate; try lia.
  - intros hi lo Hhi Hlo.
    destruct b as [|b0 [|b1 [|b2 [|b3 [|b4 [|b5 [|b6 [|b7 rest]]]]]]]];
      try discriminate.
    pose proof (Ntohl_four b0 b1 b2 b3 []) as Eh.
    pose proof (Ntohl_four b4 b5 b6 b7 []) as El.
    change (take 4 (b0 :: b1 :: b2 :: b3 :: b4 :: b5 :: b6 :: b7 :: rest))
      with [b0; b1; b2; b3] in Hhi.
    change (take 4 (drop 4
              (b0 :: b1 :: b2 :: b3 :: b4 :: b5 :: b6 :: b7 :: rest)))
      with [b4; b5; b6; b7] in Hlo.
    rewrite Eh in Hhi. rewrite El in Hlo.
    injection Hhi as <-. injection Hlo as <-.
    pose proof (byte_val_range b0). pose proof (byte_val_range b1).
    pose proof (byte_val_range b2). pose proof (byte_val_range b3).
    pose proof (byte_val_range b4). pose proof (byte_val_range b5).
    pose proof (byte_val_range b6). pose proof (byte_val_range b7).
    split; [|lia]. unfold Ntohll. simpl. f_equal.
    rewrite !shift_byte_fits by lia.
    set (v0 := byte_val b0) in *. set (v1 := byte_val b1) in *.
    set (v2 := byte_val b2) in *. set (v3 := byte_val b3) in *.
    set (v4 := byte_val b4) in *. set (v5 := byte_val b5) in *.
    set (v6 := byte_val b6) in *. set (v7 := byte_val b7) in *.
    rewrite (lor_low v0 (v1 * 2 ^ 48) 56) by lia.
    replace (v0 * 2 ^ 56 + v1 * 2 ^ 48) with ((v0 * 256 + v1) * 2 ^ 48)
      by lia.
    rewrite (lor_low _ (v2 * 2 ^ 40) 48) by lia.
    replace ((v0 * 256 + v1) * 2 ^ 48 + v2 * 2 ^ 40)
      with (((v0 * 256 + v1) * 256 + v2) * 2 ^ 40) by lia.
    rewrite (lor_low _ (v3 * 2 ^ 32) 40) by lia.
    replace (((v0 * 256 + v1) * 256 + v2) * 2 ^ 40 + v3 * 2 ^ 32)
      with ((((v0 * 256 + v1) * 256 + v2) * 256 + v3) * 2 ^ 32) by lia.
    rewrite (lor_low _ (v4 * 2 ^ 24) 32) by lia.
    replace ((((v0 * 256 + v1) * 256 + v2) * 256 + v3) * 2 ^ 32 + v4 * 2 ^ 24)
      with (((((v0 * 256 + v1) * 256 + v2) * 256 + v3) * 256 + v4) * 2 ^ 24)
      by lia.
    rewrite (lor_low _ (v5 * 2 ^ 16) 24) by lia.
    replace (((((v0 * 256 + v1) * 256 + v2) * 256 + v3) * 256 + v4) * 2 ^ 24
             + v5 * 2 ^ 16)
      with ((((((v0 * 256 + v1) * 256 + v2) * 256 + v3) * 256 + v4) * 256
             + v5) * 2 ^ 16) by lia.
    rewrite (lor_low _ (v6 * 2 ^ 8) 16) by lia.
    replace ((((((v0 * 256 + v1) * 256 + v2) * 256 + v3) * 256 + v4) * 256
              + v5) * 2 ^ 16 + v6 * 2 ^ 8)
      with (((((((v0 * 256 + v1) * 256 + v2) * 256 + v3) * 256 + v4) * 256
              + v5) * 256 + v6) * 2 ^ 8) by lia.
    rewrite (lor_low _ v7 8) by lia. lia.
Qed.

Lemma Ntohll_value_witness :
  let b := [Byte.x00; Byte.x00; Byte.x00; Byte.x01;
            Byte.x00; Byte.x00; Byte.x00; Byte.x02] in
  Ntohl (take 4 b) = Some 1
  /\ Ntohl (take 4 (drop 4 b)) = Some 2
  /\ Ntohll b = Some (1 * 2 ^ 32 + 2)
  /\ 0 <= 1 * 2 ^ 32 + 2 < 2 ^ 64.
Proof.
  intros b. split; [reflexivity|]. split; [reflexivity|].
  exact (proj2 (Ntohll_value b) 1 2 eq_refl eq_refl).
Defined.

Section RoundTrips.

Lemma byte_of_Z_mod (z : Z) (b : byte) :
  z mod 256 = byte_val b -> byte_of_Z z = b.
Proof.
  intros H. rewrite <- (byte_of_Z_val b). unfold byte_of_Z.
  rewrite H. pose proof (byte_val_range b).
  now rewrite (Z.mod_small (byte_val b)) by lia.
Qed.

Lemma IndexByte_spec (s : list byte) (c : byte) :
  (IndexByte s c = -1 /\ c ∉ s)
  \/ (exists pre rest,
        s = pre ++ c :: rest /\ (c ∉ pre)
        /\ IndexByte s c = Z.of_nat (length pre)).
Proof.
  induction s as [|b s IH]; simpl.
  - left. split; [reflexivity|]. apply not_elem_of_nil.
  - destruct (Byte.eqb b c) eqn:E.
    + apply Byte.byte_dec_bl in E as ->. right.
      exists [], s. repeat split. apply not_elem_of_nil.
    + apply Byte.eqb_false in E.
      destruct IH as [[-> Hn]|(pre & rest & -> & Hn & ->)].
      * left. split; [reflexivity|]. apply not_elem_of_cons. split; congruence.
      * right. exists (b :: pre), rest.
        split; [reflexivity|]. split.
        -- apply not_elem_of_cons. split; congruence.
        -- destruct (Z.ltb_spec (Z.of_nat (length pre)) 0); [lia|].
           cbn [length]. lia.
Qed.

Lemma ReadString_prefix (pre rest : list byte) :
  Byte.x00 ∉ pre ->
  ReadString (pre ++ Byte.x00 :: rest) = Ok (string_of_list_byte pre).
Proof.
  intros Hn. unfold ReadString.
  destruct (IndexByte_spec (pre ++ Byte.x00 :: rest) Byte.x00)
    as [[_ Hno]|(pre' & rest' & Heq & Hn' & ->)].
  - exfalso. apply Hno, elem_of_app. right. apply list_elem_of_here.
  - assert (Hpre : pre' = pre).
    { clear -Heq Hn Hn'. revert pre' Heq Hn'.
      induction pre as [|b pre IH]; intros [|b' pre'] Heq Hn'; simpl in *.
      - reflexivity.
      - injection Heq as <- _. exfalso. apply Hn', list_elem_of_here.
      - injection Heq as -> _. exfalso. apply Hn, list_elem_of_here.
      - injection Heq as -> Heq.
        apply not_elem_of_cons in Hn as [_ Hn].
        apply not_elem_of_cons in Hn' as [_ Hn'].
        f_equal. now apply IH. }
    subst pre'. destruct (Z.ltb_spec (Z.of_nat (length pre)) 0); [lia|].
    rewrite Nat2Z.id.
    apply app_inv_head in Heq. rewrite take_app_length. reflexivity.
Qed.

End RoundTrips.

(** X5: the two bytes [ComputeHashables] writes for a port are read back by
    [Ntohs] as that port, and the bytes written for what [Ntohs] read are
    the bytes read. *)
Theorem Ntohs_put_be16 (p : Z) (rest : list byte) (b0 b1 : byte) :
  0 <= p < 2 ^ 16 ->
  Ntohs (put_be16 p ++ rest) = Some p
  /\ put_be16 (byte_val b0 * 256 + byte_val b1) = [b0; b1].
Proof.
  intros Hp. split.
  - unfold put_be16. cbn [app]. rewrite Ntohs_two.
    f_equal. rewrite !byte_val_of_Z, Z.shiftr_div_pow2 by lia.
    change (2 ^ 8) with 256. change (2 ^ 16) with 65536 in Hp.
    Z.to_euclidean_division_equations. lia.
  - pose proof (byte_val_range b0). pose proof (byte_val_range b1).
    unfold put_be16. f_equal; [|f_equal].
    + apply byte_of_Z_mod. rewrite Z.shiftr_div_pow2 by lia.
      change (2 ^ 8) with 256. Z.to_euclidean_division_equations. lia.
    + apply byte_of_Z_mod. Z.to_euclidean_division_equations. lia.
Qed.

Lemma Ntohs_put_be16_witness :
  0 <= 6379 < 2 ^ 16
  /\ Ntohs (put_be16 6379 ++ [Byte.xff]) = Some 6379
  /\ put_be16 (byte_val Byte.x18 * 256 + byte_val Byte.xeb)
     = [Byte.x18; Byte.xeb].
Proof.
  assert (H : 0 <= 6379 < 2 ^ 16) by (vm_compute; split; congruence).
  split; [exact H|].
  exact (Ntohs_put_be16 6379 [Byte.xff] Byte.x18 Byte.xeb H).
Defined.

(** X6: the four bytes [ComputeHashables] writes for a stream id are read
    back by [Ntohl] as that id, and the bytes written for what [Ntohl] read
    are the bytes read. *)
Theorem Ntohl_put_be32 (x : Z) (rest : list byte) (b0 b1 b2 b3 : byte) :
  0 <= x < 2 ^ 32 ->
  Ntohl (put_be32 x ++ rest) = Some x
  /\ put_be32 (((byte_val b0 * 256 + byte_val b1) * 256 + byte_val b2) * 256
               + byte_val b3) = [b0; b1; b2; b3].
Proof.
  intros Hx. split.
  - unfold put_be32. cbn [app]. rewrite Ntohl_four.
    f_equal. rewrite !byte_val_of_Z, !Z.shiftr_div_pow2 by lia.
    change (2 ^ 8) with 256. change (2 ^ 16) with 65536.
    change (2 ^ 24) with 16777216. change (2 ^ 32) with 4294967296 in Hx.
    Z.to_euclidean_division_equations. lia.
  - pose proof (byte_val_range b0). pose proof (byte_val_range b1).
    pose proof (byte_val_range b2). pose proof (byte_val_range b3).
    unfold put_be32. repeat f_equal; apply byte_of_Z_mod;
      rewrite ?Z.shiftr_div_pow2 by lia;
      change (2 ^ 8) with 256; change (2 ^ 16) with 65536;
      change (2 ^ 24) with 16777216;
      Z.to_euclidean_division_equations; lia.
Qed.

Lemma Ntohl_put_be32_witness :
  0 <= 3000000000 < 2 ^ 32
  /\ Ntohl (put_be32 3000000000 ++ []) = Some 3000000000
  /\ put_be32 (((byte_val Byte.x0a * 256 + byte_val Byte.x00) * 256
                + byte_val Byte.x00) * 256 + byte_val Byte.x02)
     = [Byte.x0a; Byte.x00; Byte.x00; Byte.x02].
Proof.
  assert (H : 0 <= 3000000000 < 2 ^ 32) by (vm_compute; split; congruence).
  split; [exact H|].
  exact (Ntohl_put_be32 3000000000 [] Byte.x0a Byte.x00 Byte.x00 Byte.x02 H).
Defined.

(** X7: [Ipv4Ntoa] applied to what [Ntohl] reads from four bytes prints
    these four bytes in decimal, in order, separated by dots. *)
Theorem Ipv4Ntoa_Ntohl (a b c d : byte) (rest : list byte) (ip : Z) :
  Ntohl (a :: b :: c :: d :: rest) = Some ip ->
  Ipv4Ntoa ip
  = String.append (sprintf_d (byte_val a))
      (String.append "."
         (String.append (sprintf_d (byte_val b))
            (String.append "."
               (String.append (sprintf_d (byte_val c))
                  (String.append "." (sprintf_d (byte_val d))))))).
Proof.
  intros Hip.
  rewrite Ntohl_four in Hip. injection Hip as <-.
  pose proof (byte_val_range a). pose proof (byte_val_range b).
  pose proof (byte_val_range c). pose proof (byte_val_range d).
  unfold Ipv4Ntoa.
  rewrite (byte_of_Z_mod _ a), (byte_of_Z_mod _ b), (byte_of_Z_mod _ c),
    (byte_of_Z_mod _ d); [reflexivity| | | |];
    rewrite ?Z.shiftr_div_pow2 by lia;
    change (2 ^ 8) with 256; change (2 ^ 16) with 65536;
    change (2 ^ 24) with 16777216;
    Z.to_euclidean_division_equations; lia.
Qed.

Lemma Ipv4Ntoa_Ntohl_witness :
  Ntohl [Byte.x0a; Byte.x00; Byte.x00; Byte.x02] = Some 167772162
  /\ Ipv4Ntoa 167772162 = "10.0.0.2".
Proof.
  split; [reflexivity|].
  exact (Ipv4Ntoa_Ntohl Byte.x0a Byte.x00 Byte.x00 Byte.x02 [] 167772162
           eq_refl).
Defined.

(** X8: [ReadString] fails, with the error "No string found", exactly when
    the slice holds no zero byte; otherwise it returns the bytes before the
    first zero byte as a string. *)
Theorem ReadString_first_nul (s : list byte) :
  match ReadString s with
  | Fail e => e = "No string found" /\ Byte.x00 ∉ s
  | Ok res =>
      exists pre rest,
        s = pre ++ Byte.x00 :: rest
        /\ (Byte.x00 ∉ pre)
        /\ res = string_of_list_byte pre
  end.
Proof.
  unfold ReadString.
  destruct (IndexByte_spec s Byte.x00)
    as [[-> Hn]|(pre & rest & -> & Hn & ->)].
  - now split.
  - destruct (Z.ltb_spec (Z.of_nat (length pre)) 0); [lia|].
    exists pre, rest. repeat split; [exact Hn|].
    rewrite Nat2Z.id. now rewrite take_app_length.
Qed.

Example ReadString_examples :
  ReadString [Byte.x68; Byte.x69; Byte.x00; Byte.x21; Byte.x00] = Ok "hi"
  /\ ReadString [Byte.x68; Byte.x69] = Fail "No string found"
  /\ ReadString [] = Fail "No string found".
Proof. repeat split. Qed.

(** X9: a string without a zero byte, followed by a zero byte and anything
    else, is read back by [ReadString]. *)
Theorem ReadString_round_trip (str : string) (rest : list byte) :
  Byte.x00 ∉ list_byte_of_string str ->
  ReadString (list_byte_of_string str ++ Byte.x00 :: rest) = Ok str.
Proof.
  intros Hn.
  rewrite ReadString_prefix by exact Hn.
  now rewrite string_of_list_byte_of_string.
Qed.

Lemma ReadString_round_trip_witness :
  (Byte.x00 ∉ list_byte_of_string "GET")
  /\ ReadString (list_byte_of_string "GET" ++ Byte.x00 :: [Byte.x2f])
     = Ok "GET".
Proof.
  assert (H : Byte.x00 ∉ list_byte_of_string "GET").
  { intros Hin. repeat (apply elem_of_cons in Hin as [Hin|Hin];
                        [discriminate Hin|]).
    now apply elem_of_nil in Hin. }
  split; [exact H|].
  exact (ReadString_round_trip "GET" [Byte.x2f] H).
Defined.

(** ** Hashable tuples *)

Section Hashables.

Lemma length_overlay (src old : list byte) :
  length (overlay src old) = length old.
Proof.
  unfold overlay. rewrite length_app, length_take, length_drop. lia.
Qed.

Lemma overlay_same_length (src old : list byte) :
  length src = length old -> overlay src old = src.
Proof.
  intros H. unfold overlay. rewrite H, Nat.min_id.
  rewrite <- H at 1. rewrite firstn_all, drop_all. apply app_nil_r.
Qed.

Lemma overlay_zeros (ip : list byte) :
  overlay ip (replicate 16 Byte.x00) = pad16 ip.
Proof.
  unfold overlay, pad16. rewrite length_replicate, drop_replicate.
  destruct (Nat.le_gt_cases (length ip) 16) as [Hle|Hgt].
  - rewrite Nat.min_r by exact Hle. now rewrite !take_ge by lia.
  - rewrite Nat.min_l by lia.
    now replace (16 - length ip)%nat with (16 - 16)%nat by lia.
Qed.

Lemma copy_at_window (pre mid post src : list byte) (off width : nat) :
  off = length pre -> width = length mid ->
  copy_at (pre ++ mid ++ post) off width src = pre ++ overlay src mid ++ post.
Proof.
  intros -> ->. unfold copy_at, overlay.
  rewrite take_app_length, drop_app_add, drop_app_le by lia.
  now rewrite <- app_assoc.
Qed.

(** Four windows of 16, 2, 16 and 2 bytes, overwritten in turn; what lies
    behind them stays. *)
Lemma four_copies (r1 r2 r3 r4 post s p d q : list byte) :
  length r1 = 16%nat -> length r2 = 2%nat ->
  length r3 = 16%nat -> length r4 = 2%nat ->
  copy_at
    (copy_at (copy_at (copy_at (r1 ++ r2 ++ r3 ++ r4 ++ post) 0 16 s) 16 2 p)
       18 16 d) 34 2 q
  = overlay s r1 ++ overlay p r2 ++ overlay d r3 ++ overlay q r4 ++ post.
Proof.
  intros H1 H2 H3 H4.
  rewrite (copy_at_window [] r1 (r2 ++ r3 ++ r4 ++ post) s) by (simpl; lia).
  cbn [app].
  rewrite (copy_at_window (overlay s r1) r2 (r3 ++ r4 ++ post) p)
    by (rewrite ?length_overlay; lia).
  rewrite (app_assoc (overlay s r1) (overlay p r2) (r3 ++ r4 ++ post)).
  rewrite (copy_at_window (overlay s r1 ++ overlay p r2) r3 (r4 ++ post) d)
    by (rewrite ?length_app, ?length_overlay; lia).
  rewrite (app_assoc _ (overlay d r3) (r4 ++ post)).
  rewrite (copy_at_window ((overlay s r1 ++ overlay p r2) ++ overlay d r3)
             r4 post q)
    by (rewrite ?length_app, ?length_overlay; lia).
  now rewrite <- !app_assoc.
Qed.

(** An array of 36 bytes cut into its four windows. *)
Lemma split_36 (raw : list byte) :
  length raw = 36%nat ->
  raw = take 16 raw ++ take 2 (drop 16 raw) ++ take 16 (drop 18 raw)
        ++ drop 34 raw.
Proof.
  intros H.
  rewrite <- (take_drop 16 raw) at 1. f_equal.
  rewrite <- (take_drop 2 (drop 16 raw)) at 1. f_equal.
  rewrite drop_drop. change (16 + 2)%nat with 18%nat.
  rewrite <- (take_drop 16 (drop 18 raw)) at 1. f_equal.
  now rewrite drop_drop.
Qed.

Lemma length_put_be16 (p : Z) : length (put_be16 p) = 2%nat.
Proof. reflexivity. Qed.

Lemma length_put_be32 (x : Z) : length (put_be32 x) = 4%nat.
Proof. reflexivity. Qed.

Lemma length_pad16 (ip : list byte) : length (pad16 ip) = 16%nat.
Proof.
  unfold pad16. rewrite length_app, length_take, length_replicate. lia.
Qed.

Lemma put_be16_inj (p q : Z) :
  is_uint16 p -> is_uint16 q -> put_be16 p = put_be16 q -> p = q.
Proof.
  unfold is_uint16. intros Hp Hq H.
  assert (Hv : Ntohs (put_be16 p) = Ntohs (put_be16 q)) by now rewrite H.
  unfold put_be16 in Hv. rewrite !Ntohs_two, !byte_val_of_Z in Hv.
  rewrite !Z.shiftr_div_pow2 in Hv by lia.
  injection Hv as Hv. change (2 ^ 8) with 256 in Hv.
  change (2 ^ 16) with 65536 in *.
  Z.to_euclidean_division_equations. lia.
Qed.

Lemma put_be32_inj (x y : Z) :
  is_uint32 x -> is_uint32 y -> put_be32 x = put_be32 y -> x = y.
Proof.
  unfold is_uint32. intros Hx Hy H.
  assert (Hv : Ntohl (put_be32 x) = Ntohl (put_be32 y)) by now rewrite H.
  unfold put_be32 in Hv. rewrite !Ntohl_four, !byte_val_of_Z in Hv.
  rewrite !Z.shiftr_div_pow2 in Hv by lia.
  injection Hv as Hv. change (2 ^ 8) with 256 in Hv.
  change (2 ^ 16) with 65536 in Hv. change (2 ^ 24) with 16777216 in Hv.
  change (2 ^ 32) with 4294967296 in *.
  Z.to_euclidean_division_equations. lia.
Qed.

Lemma pad16_inj (a b : list byte) :
  length a = length b -> (length a <= 16)%nat -> pad16 a = pad16 b -> a = b.
Proof.
  intros Hl Hle. unfold pad16. rewrite <- Hl, !take_ge by lia.
  apply app_inv_tail.
Qed.

Lemma raw_fresh (s d : list byte) (sp dp : Z) :
  copy_at
    (copy_at
       (copy_at
          (copy_at (replicate MaxIpPortTupleRawSize Byte.x00) 0 16 s)
          16 2 (put_be16 sp))
       18 16 d)
    34 2 (put_be16 dp)
  = pad16 s ++ put_be16 sp ++ pad16 d ++ put_be16 dp.
Proof.
  change (replicate MaxIpPortTupleRawSize Byte.x00)
    with (replicate 16 Byte.x00 ++ replicate 2 Byte.x00
          ++ replicate 16 Byte.x00 ++ replicate 2 Byte.x00 ++ []).
  rewrite four_copies by apply length_replicate.
  rewrite !overlay_zeros, app_nil_r.
  now rewrite !(overlay_same_length (put_be16 _)) by reflexivity.
Qed.

Lemma tcp_raw_fresh (s d : list byte) (sp dp id : Z) :
  copy_at
    (copy_at
       (copy_at
          (copy_at
             (copy_at (replicate MaxTcpTupleRawSize Byte.x00) 0 16 s)
             16 2 (put_be16 sp))
          18 16 d)
       34 2 (put_be16 dp))
    36 4 (put_be32 id)
  = (pad16 s ++ put_be16 sp ++ pad16 d ++ put_be16 dp) ++ put_be32 id.
Proof.
  change (replicate MaxTcpTupleRawSize Byte.x00)
    with (replicate 16 Byte.x00 ++ replicate 2 Byte.x00
          ++ replicate 16 Byte.x00 ++ replicate 2 Byte.x00
          ++ replicate 4 Byte.x00).
  rewrite four_copies by apply length_replicate.
  rewrite !overlay_zeros.
  rewrite !(overlay_same_length (put_be16 _)) by reflexivity.
  rewrite !app_assoc. rewrite <- (app_nil_r (replicate 4 Byte.x00)).
  rewrite copy_at_window;
    [|rewrite !length_app, !length_pad16, !length_put_be16; reflexivity
     |reflexivity].
  rewrite app_nil_r. now rewrite overlay_same_length by reflexivity.
Qed.

Lemma overlay_of_prefix (a w : list byte) :
  take (Nat.min (length w) (length a)) a
  = take (Nat.min (length w) (length a)) w ->
  overlay a w = w.
Proof. intros H. unfold overlay. rewrite H. apply take_drop. Qed.

Lemma overlay_pad16_self (a : list byte) : overlay a (pad16 a) = pad16 a.
Proof.
  apply overlay_of_prefix. rewrite length_pad16. unfold pad16.
  rewrite take_app_le by (rewrite length_take; lia).
  rewrite take_take. f_equal. lia.
Qed.

Lemma overlay_pad16_prefix (a tail : list byte) :
  (length (a ++ tail) <= 16)%nat ->
  overlay a (pad16 (a ++ tail)) = pad16 (a ++ tail).
Proof.
  intros Hle. apply overlay_of_prefix. rewrite length_pad16.
  rewrite length_app in Hle. rewrite Nat.min_r by lia.
  unfold pad16. rewrite (take_ge (a ++ tail)) by (rewrite length_app; lia).
  rewrite <- app_assoc. rewrite take_app_length. apply firstn_all.
Qed.

End Hashables.

(** X10: the hashable of a new IP-port tuple is 36 bytes: the source
    address in 16 bytes (cut at 16, filled with zero bytes), the source
    port in two bytes, high byte first, then the destination address and
    port in the same way; the reverse hashable has destination and source
    exchanged. *)
Theorem NewIpPortTuple_layout (ipLength : Z) (srcIp : list byte) (srcPort : Z)
  (dstIp : list byte) (dstPort : Z) :
  let t := NewIpPortTuple ipLength srcIp srcPort dstIp dstPort in
  IpPortTuple_Hashable t
  = pad16 srcIp ++ put_be16 srcPort ++ pad16 dstIp ++ put_be16 dstPort
  /\ IpPortTuple_RevHashable t
     = pad16 dstIp ++ put_be16 dstPort ++ pad16 srcIp ++ put_be16 srcPort
  /\ length (IpPortTuple_Hashable t) = MaxIpPortTupleRawSize
  /\ length (IpPortTuple_RevHashable t) = MaxIpPortTupleRawSize.
Proof.
  intros t. subst t.
  unfold IpPortTuple_Hashable, IpPortTuple_RevHashable, NewIpPortTuple,
    IpPortTuple_ComputeHashables. cbn [ipt_raw ipt_revRaw ipt_SrcIp ipt_DstIp
    ipt_SrcPort ipt_DstPort].
  rewrite !raw_fresh.
  repeat split;
    rewrite !length_app, !length_pad16, !length_put_be16; reflexivity.
Qed.

(** X11: the reverse hashable of a tuple is the hashable of the tuple with
    source and destination exchanged, and the other way round. *)
Theorem RevHashable_swaps (l l' : Z) (srcIp : list byte) (srcPort : Z)
  (dstIp : list byte) (dstPort : Z) :
  IpPortTuple_RevHashable (NewIpPortTuple l srcIp srcPort dstIp dstPort)
  = IpPortTuple_Hashable (NewIpPortTuple l' dstIp dstPort srcIp srcPort)
  /\ IpPortTuple_Hashable (NewIpPortTuple l srcIp srcPort dstIp dstPort)
     = IpPortTuple_RevHashable (NewIpPortTuple l' dstIp dstPort srcIp srcPort).
Proof.
  unfold IpPortTuple_Hashable, IpPortTuple_RevHashable, NewIpPortTuple,
    IpPortTuple_ComputeHashables. cbn [ipt_raw ipt_revRaw ipt_SrcIp ipt_DstIp
    ipt_SrcPort ipt_DstPort].
  now rewrite !raw_fresh.
Qed.

(** X12: among tuples whose addresses have the same length, at most 16,
    and whose ports are 16-bit, the hashable identifies the tuple: equal
    hashables mean equal addresses and equal ports. *)
Theorem Hashable_identifies (l l' : Z) (s s' d d' : list byte)
  (sp sp' dp dp' : Z) :
  length s = length s' -> (length s <= 16)%nat ->
  length d = length d' -> (length d <= 16)%nat ->
  is_uint16 sp -> is_uint16 sp' -> is_uint16 dp -> is_uint16 dp' ->
  IpPortTuple_Hashable (NewIpPortTuple l s sp d dp)
  = IpPortTuple_Hashable (NewIpPortTuple l' s' sp' d' dp') ->
  s = s' /\ sp = sp' /\ d = d' /\ dp = dp'.
Proof.
  intros Hs Hs16 Hd Hd16 Hsp Hsp' Hdp Hdp'.
  unfold IpPortTuple_Hashable, NewIpPortTuple, IpPortTuple_ComputeHashables.
  cbn [ipt_raw ipt_SrcIp ipt_DstIp ipt_SrcPort ipt_DstPort].
  rewrite !raw_fresh. intros H.
  apply app_inj_1 in H as [H1 H]; [|now rewrite !length_pad16].
  apply app_inj_1 in H as [H2 H]; [|reflexivity].
  apply app_inj_1 in H as [H3 H4]; [|now rewrite !length_pad16].
  repeat split.
  - now apply pad16_inj.
  - now apply put_be16_inj.
  - now apply pad16_inj.
  - now apply put_be16_inj.
Qed.

Lemma Hashable_identifies_witness :
  let a := [Byte.x0a; Byte.x00; Byte.x00; Byte.x01] in
  let b := [Byte.x0a; Byte.x00; Byte.x00; Byte.x02] in
  length a = length a /\ (length a <= 16)%nat
  /\ length b = length b /\ (length b <= 16)%nat
  /\ is_uint16 80 /\ is_uint16 80 /\ is_uint16 6379 /\ is_uint16 6379
  /\ IpPortTuple_Hashable (NewIpPortTuple 4 a 80 b 6379)
     = IpPortTuple_Hashable (NewIpPortTuple 16 a 80 b 6379)
  /\ a = a /\ 80 = 80 /\ b = b /\ 6379 = 6379.
Proof.
  intros a b.
  assert (H16 : forall p, 0 <= p -> p < 65536 -> is_uint16 p).
  { intros p H0 H1. unfold is_uint16. change (2 ^ 16) with 65536. lia. }
  assert (Ha : (length a <= 16)%nat) by (simpl; lia).
  assert (Hb : (length b <= 16)%nat) by (simpl; lia).
  assert (H80 : is_uint16 80) by (apply H16; lia).
  assert (H63 : is_uint16 6379) by (apply H16; lia).
  split; [reflexivity|]. split; [exact Ha|].
  split; [reflexivity|]. split; [exact Hb|].
  split; [exact H80|]. split; [exact H80|].
  split; [exact H63|]. split; [exact H63|].
  split; [reflexivity|].
  exact (Hashable_identifies 4 16 a a b b 80 80 6379 6379 eq_refl Ha eq_refl
           Hb H80 H80 H63 H63 eq_refl).
Defined.

(** X13: the hashable records neither IpLength nor where an address ends:
    a tuple whose source address is followed by zero bytes, up to 16 bytes
    in all, has the hashable of the tuple with the shorter address. *)
Theorem Hashable_zero_padding (l l' : Z) (s d : list byte) (k : nat)
  (sp dp : Z) :
  (length s + k <= 16)%nat ->
  IpPortTuple_Hashable (NewIpPortTuple l s sp d dp)
  = IpPortTuple_Hashable
      (NewIpPortTuple l' (s ++ replicate k Byte.x00) sp d dp).
Proof.
  intros Hk.
  unfold IpPortTuple_Hashable, NewIpPortTuple, IpPortTuple_ComputeHashables.
  cbn [ipt_raw ipt_SrcIp ipt_DstIp ipt_SrcPort ipt_DstPort].
  rewrite !raw_fresh. f_equal. unfold pad16.
  rewrite !take_ge by (rewrite ?length_app, ?length_replicate; lia).
  rewrite length_app, length_replicate, <- app_assoc. f_equal.
  rewrite <- replicate_add. f_equal. lia.
Qed.

Lemma Hashable_zero_padding_witness :
  let ip4 := [Byte.x0a; Byte.x00; Byte.x00; Byte.x01] in
  (length ip4 + 12 <= 16)%nat
  /\ IpPortTuple_Hashable (NewIpPortTuple 4 ip4 80 ip4 81)
     = IpPortTuple_Hashable
         (NewIpPortTuple 16 (ip4 ++ replicate 12 Byte.x00) 80 ip4 81)
  /\ ip4 <> ip4 ++ replicate 12 Byte.x00.
Proof.
  intros ip4.
  assert (H : (length ip4 + 12 <= 16)%nat) by (simpl; lia).
  split; [exact H|]. split; [|discriminate].
  exact (Hashable_zero_padding 4 16 ip4 ip4 12 80 81 H).
Defined.

(** X14: the hashable of the TCP tuple made from an IP-port tuple and a
    stream id is 40 bytes: the hashable of the new IP-port tuple with the
    same addresses and ports, followed by the stream id in four bytes,
    highest first; and [IpPort] gives that IP-port tuple back. *)
Theorem TcpTupleFromIpPort_layout (t : IpPortTuple) (tcp_id : Z) :
  let fresh := NewIpPortTuple (ipt_IpLength t) (ipt_SrcIp t) (ipt_SrcPort t)
                 (ipt_DstIp t) (ipt_DstPort t) in
  TcpTuple_Hashable (TcpTupleFromIpPort t tcp_id)
  = IpPortTuple_Hashable fresh ++ put_be32 tcp_id
  /\ length (TcpTuple_Hashable (TcpTupleFromIpPort t tcp_id))
     = MaxTcpTupleRawSize
  /\ TcpTuple_IpPort (TcpTupleFromIpPort t tcp_id) = fresh.
Proof.
  intros fresh. subst fresh.
  unfold TcpTuple_Hashable, TcpTupleFromIpPort, TcpTuple_ComputeHashables,
    TcpTuple_IpPort, IpPortTuple_Hashable, NewIpPortTuple,
    IpPortTuple_ComputeHashables.
  cbn [tcp_raw tcp_SrcIp tcp_DstIp tcp_SrcPort tcp_DstPort tcp_StreamId
       tcp_IpLength ipt_raw ipt_revRaw ipt_SrcIp ipt_DstIp ipt_SrcPort
       ipt_DstPort ipt_IpLength].
  rewrite tcp_raw_fresh, !raw_fresh.
  repeat split.
  rewrite !length_app, !length_pad16, !length_put_be16, length_put_be32.
  reflexivity.
Qed.

(** X15: two TCP tuples made from the same IP-port tuple have the same
    hashable only if their 32-bit stream ids are the same. *)
Theorem TcpTuple_Hashable_stream_id (t : IpPortTuple) (id id' : Z) :
  is_uint32 id -> is_uint32 id' ->
  TcpTuple_Hashable (TcpTupleFromIpPort t id)
  = TcpTuple_Hashable (TcpTupleFromIpPort t id') ->
  id = id'.
Proof.
  intros Hid Hid'.
  unfold TcpTuple_Hashable, TcpTupleFromIpPort, TcpTuple_ComputeHashables.
  cbn [tcp_raw tcp_SrcIp tcp_DstIp tcp_SrcPort tcp_DstPort tcp_StreamId].
  rewrite !tcp_raw_fresh. intros H.
  apply app_inv_head in H. now apply put_be32_inj.
Qed.

Lemma TcpTuple_Hashable_stream_id_witness :
  let t := NewIpPortTuple 4 [Byte.x0a; Byte.x00; Byte.x00; Byte.x01] 80
             [Byte.x0a; Byte.x00; Byte.x00; Byte.x02] 6379 in
  is_uint32 7 /\ is_uint32 7
  /\ TcpTuple_Hashable (TcpTupleFromIpPort t 7)
     = TcpTuple_Hashable (TcpTupleFromIpPort t 7)
  /\ 7 = 7.
Proof.
  intros t.
  assert (H : is_uint32 7).
  { unfold is_uint32. change (2 ^ 32) with 4294967296. lia. }
  split; [exact H|]. split; [exact H|]. split; [reflexivity|].
  exact (TcpTuple_Hashable_stream_id t 7 7 H H eq_refl).
Defined.

(** X16: [ComputeHashables] overwrites and never clears.  When the source
    address of a new tuple is replaced by a prefix of itself and the
    hashables are computed again, they are what they were: the bytes of the
    longer address stay. *)
Theorem ComputeHashables_keeps_old_bytes (l : Z) (s tail d : list byte)
  (sp dp : Z) :
  (length (s ++ tail) <= 16)%nat ->
  let t := NewIpPortTuple l (s ++ tail) sp d dp in
  let t' := IpPortTuple_ComputeHashables (set_ipt_SrcIp t s) in
  ipt_SrcIp t' = s
  /\ IpPortTuple_Hashable t' = IpPortTuple_Hashable t
  /\ IpPortTuple_RevHashable t' = IpPortTuple_RevHashable t.
Proof.
  intros Hle t t'. subst t t'.
  unfold IpPortTuple_Hashable, IpPortTuple_RevHashable, set_ipt_SrcIp,
    NewIpPortTuple.
  unfold IpPortTuple_ComputeHashables at 1 3 5.
  cbn [ipt_raw ipt_revRaw ipt_SrcIp ipt_DstIp ipt_SrcPort ipt_DstPort
       ipt_IpLength].
  split; [reflexivity|].
  unfold IpPortTuple_ComputeHashables.
  cbn [ipt_raw ipt_revRaw ipt_SrcIp ipt_DstIp ipt_SrcPort ipt_DstPort
       ipt_IpLength].
  rewrite !raw_fresh.
  split.
  - rewrite <- (app_nil_r (put_be16 dp)) at 1.
    rewrite four_copies
      by (rewrite ?length_pad16, ?length_put_be16; reflexivity).
    rewrite overlay_pad16_prefix by exact Hle.
    rewrite overlay_pad16_self.
    rewrite !(overlay_same_length (put_be16 _)) by reflexivity.
    now rewrite app_nil_r.
  - rewrite <- (app_nil_r (put_be16 sp)) at 1.
    rewrite four_copies
      by (rewrite ?length_pad16, ?length_put_be16; reflexivity).
    rewrite overlay_pad16_prefix by exact Hle.
    rewrite overlay_pad16_self.
    rewrite !(overlay_same_length (put_be16 _)) by reflexivity.
    now rewrite app_nil_r.
Qed.

Lemma ComputeHashables_keeps_old_bytes_witness :
  let s := [Byte.x0a; Byte.x00] in
  let tail := [Byte.x00; Byte.x01] in
  let d := [Byte.x0a; Byte.x00; Byte.x00; Byte.x02] in
  let t := NewIpPortTuple 4 (s ++ tail) 80 d 6379 in
  let t' := IpPortTuple_ComputeHashables (set_ipt_SrcIp t s) in
  (length (s ++ tail) <= 16)%nat
  /\ ipt_SrcIp t' = s
  /\ IpPortTuple_Hashable t' = IpPortTuple_Hashable t
  /\ IpPortTuple_RevHashable t' = IpPortTuple_RevHashable t.
Proof.
  intros s tail d t t'.
  assert (H : (length (s ++ tail) <= 16)%nat) by (simpl; lia).
  split; [exact H|].
  exact (ComputeHashables_keeps_old_bytes 4 s tail d 80 6379 H).
Defined.

(** ** The queue between [PublishEvent] and the worker *)

Section Queue.

Lemma set_sendingQueue_same (out : RedisOutput) :
  set_sendingQueue out (sendingQueue out) = out.
Proof. now destruct out. Qed.

Lemma marshalled_ok_Ok (j : string) (events : list (result string)) :
  marshalled_ok (Ok j :: events) = j :: marshalled_ok events.
Proof. reflexivity. Qed.

Lemma marshalled_ok_Fail (e : error) (events : list (result string)) :
  marshalled_ok (Fail e :: events) = marshalled_ok events.
Proof. reflexivity. Qed.

Lemma publish_all_fits (events : list (result string)) (out : RedisOutput)
  (cap : nat) (buf : list RedisQueueMsg) :
  sendingQueue out = Some (MkChan cap buf) ->
  (length buf + length (marshalled_ok events) <= cap)%nat ->
  publish_all out events
  = (map publish_result events,
     set_sendingQueue out
       (Some (MkChan cap
                (buf ++ map (MkMsg (Index out)) (marshalled_ok events))))).
Proof.
  revert out buf. induction events as [|ev events IH]; intros out buf Hq Hfit.
  - simpl. rewrite app_nil_r, <- Hq. now rewrite set_sendingQueue_same.
  - destruct ev as [j|e]; cbn [publish_all PublishEvent].
    + rewrite marshalled_ok_Ok in *. rewrite Hq.
      cbn [chan_send chan_buf chan_cap]. cbn [length] in Hfit.
      destruct (Nat.ltb_spec (length buf) cap) as [_|Hge]; [|lia].
      rewrite (IH _ (buf ++ [MkMsg (Index out) j]));
        [|reflexivity|rewrite length_app; simpl; lia].
      cbn [map]. rewrite <- app_assoc. reflexivity.
    + rewrite marshalled_ok_Fail in *.
      rewrite (IH out buf Hq Hfit). reflexivity.
Qed.





End Queue.

(** X17: as long as the queue has room for them, successive calls of
    [PublishEvent] all return: an event that cannot be serialized returns
    its error and leaves the queue as it is, every other event returns nil
    and is appended to the queue under the output's index, in call
    order. *)
Theorem PublishEvent_enqueues_in_order (events : list (result string))
  (out : RedisOutput) (cap : nat) (buf : list RedisQueueMsg) :
  sendingQueue out = Some (MkChan cap buf) ->
  (length buf + length (marshalled_ok events) <= cap)%nat ->
  fst (publish_all out events) = map publish_result events
  /\ sendingQueue (snd (publish_all out events))
     = Some (MkChan cap
               (buf ++ map (MkMsg (Index out)) (marshalled_ok events)))
  /\ snd (publish_all out events)
     = set_sendingQueue out (sendingQueue (snd (publish_all out events))).
Proof.
  intros Hq Hfit. rewrite (publish_all_fits events out cap buf Hq Hfit).
  repeat split.
Qed.

Lemma PublishEvent_enqueues_in_order_witness :
  let out := initialised example_config in
  let events := [Ok "{a}"; Fail "json: unsupported value"; Ok "{b}"] in
  sendingQueue out = Some (MkChan 1000 [])
  /\ (length ([] : list RedisQueueMsg) + length (marshalled_ok events)
      <= 1000)%nat
  /\ fst (publish_all out events)
     = [Done None; Done (Some "json: unsupported value"); Done None]
  /\ sendingQueue (snd (publish_all out events))
     = Some (MkChan 1000
               [MkMsg "packetbeat" "{a}"; MkMsg "packetbeat" "{b}"])
  /\ snd (publish_all out events)
     = set_sendingQueue out (sendingQueue (snd (publish_all out events))).
Proof.
  intros out events.
  assert (H : (length ([] : list RedisQueueMsg)
               + length (marshalled_ok events) <= 1000)%nat)
    by (vm_compute; lia).
  split; [reflexivity|]. split; [exact H|].
  exact (PublishEvent_enqueues_in_order events out 1000 [] eq_refl H).
Defined.

(** X18: [PublishEvent] blocks on the nil queue of an output that was not
    initialised and on a full queue, changing nothing; when the events of
    a run would overfill the queue, those for which there is room are
    enqueued and the next call blocks. *)
Theorem PublishEvent_blocks_when_full (out : RedisOutput) (cap : nat)
  (buf : list RedisQueueMsg) (fit more : list string) (j : string) :
  sendingQueue out = Some (MkChan cap buf) ->
  (length buf + length fit)%nat = cap ->
  PublishEvent zero_RedisOutput (Ok j) = (Blocks, zero_RedisOutput)
  /\ publish_all out (map Ok (fit ++ j :: more))
     = (map (fun _ => Done None) fit ++ [Blocks],
        set_sendingQueue out
          (Some (MkChan cap (buf ++ map (MkMsg (Index out)) fit)))).
Proof.
  intros Hq Hfull. split; [reflexivity|].
  revert out buf Hq Hfull. induction fit as [|f fit IH];
    intros out buf Hq Hfull.
  - cbn [app map publish_all PublishEvent]. rewrite Hq.
    cbn [chan_send chan_buf chan_cap]. cbn [length] in Hfull.
    destruct (Nat.ltb_spec (length buf) cap) as [Hlt|_]; [lia|].
    rewrite app_nil_r, <- Hq. now rewrite set_sendingQueue_same.
  - cbn [app map publish_all PublishEvent]. rewrite Hq.
    cbn [chan_send chan_buf chan_cap]. cbn [length] in Hfull.
    destruct (Nat.ltb_spec (length buf) cap) as [_|Hge]; [|lia].
    change (map Ok (fit ++ j :: more))
      with (map (@Ok string) (fit ++ j :: more)).
    rewrite (IH _ (buf ++ [MkMsg (Index out) f]));
      [|reflexivity|rewrite length_app; simpl; lia].
    cbn [map app]. rewrite <- app_assoc. reflexivity.
Qed.

Lemma PublishEvent_blocks_when_full_witness :
  let out := set_sendingQueue (initialised example_config)
               (Some (MkChan 2 [])) in
  sendingQueue out = Some (MkChan 2 [])
  /\ (length ([] : list RedisQueueMsg) + length ["{a}"; "{b}"])%nat = 2%nat
  /\ PublishEvent zero_RedisOutput (Ok "{c}") = (Blocks, zero_RedisOutput)
  /\ publish_all out (map Ok (["{a}"; "{b}"] ++ "{c}" :: ["{d}"]))
     = (map (fun _ => Done None) ["{a}"; "{b}"] ++ [Blocks],
        set_sendingQueue out
          (Some (MkChan 2
                   ([] ++ map (MkMsg (Index out)) ["{a}"; "{b}"])))).
Proof.
  intros out. split; [reflexivity|]. split; [reflexivity|].
  exact (PublishEvent_blocks_when_full out 2 [] ["{a}"; "{b}"] ["{d}"] "{c}"
           eq_refl eq_refl).
Defined.



Example publish_then_deliver_example :
  let out := initialised example_config in
  worker_drain
    (MkWorker (snd (publish_all out [Ok "{a}"; Fail "bad"; Ok "{b}"])) 0 true)
    2
  = Some (Continue
            (MkWorker out 2 true)
            [ESend 1 (RPUSH "packetbeat" "{a}");
             ESend 1 (RPUSH "packetbeat" "{b}")]).
Proof. reflexivity. Qed.

(** ** The worker across failures *)

Section WorkerDynamics.

Lemma worker_run_dropped (w : Worker)
  (evs : list (RedisQueueMsg * option error)) :
  connected (w_out w) = false ->
  worker_run w (map (fun '(m, a) => QueueMsg m a) evs) = Continue w [].
Proof.
  intros Hc. induction evs as [|[m a] evs IH]; [reflexivity|].
  cbn [map worker_run worker_turn]. rewrite Hc. cbn [negb]. now rewrite IH.
Qed.

Lemma worker_turn_pending (w w' : Worker) (ev : Event) (tr : trace) :
  worker_turn w ev = Continue w' tr ->
  0 <= w_pending w < int64_max ->
  w_pending w' = Z.of_nat (sends_since_flush (Z.to_nat (w_pending w)) tr)
  /\ 0 <= w_pending w' <= w_pending w + 1.
Proof.
  intros Hturn Hp.
  assert (Hw : wrap64 (w_pending w + 1) = w_pending w + 1).
  { apply wrap64_small. unfold in_int64, int64_min, int64_max in *. lia. }
  assert (Hid : Z.of_nat (Z.to_nat (w_pending w)) = w_pending w) by lia.
  assert (Hs : Z.of_nat (S (Z.to_nat (w_pending w))) = w_pending w + 1)
    by lia.
  unfold worker_turn in Hturn. destruct ev as [m a|a|d].
  - destruct (connected (w_out w)); cbn [negb] in Hturn.
    + destruct (RConn (w_out w)) as [conn|]; [|discriminate].
      destruct (flush_immediatelly (w_out w)); cbn [negb] in Hturn;
        destruct a; injection Hturn as <- <-; cbn [w_pending];
        rewrite ?Hw; cbn; lia.
    + injection Hturn as <- <-. cbn. lia.
  - destruct (w_ticker w); cbn [negb] in Hturn; [|discriminate].
    destruct (Z.ltb_spec 0 (w_pending w)).
    + destruct (RConn (w_out w)) as [conn|]; [|discriminate].
      destruct a; injection Hturn as <- <-; cbn; lia.
    + injection Hturn as <- <-. cbn. lia.
  - destruct (Connect (w_out w) d) as [[err out'] t].
    injection Hturn as <- <-. cbn. lia.
Qed.

Lemma sends_since_flush_app (n : nat) (t1 t2 : trace) :
  sends_since_flush n (t1 ++ t2)
  = sends_since_flush (sends_since_flush n t1) t2.
Proof. apply fold_left_app. Qed.

Lemma worker_turn_immediate (w w' : Worker) (ev : Event) (tr : trace) :
  flush_immediatelly (w_out w) = true ->
  w_pending w = 0 ->
  worker_turn w ev = Continue w' tr ->
  flush_immediatelly (w_out w') = true
  /\ w_pending w' = 0
  /\ w_ticker w' = w_ticker w
  /\ count_eff is_send tr = 0%nat
  /\ count_eff is_flush tr = 0%nat
  /\ count_eff is_receive tr = 0%nat.
Proof.
  intros Hfl Hp Hturn. unfold worker_turn in Hturn.
  destruct ev as [m a|a|d].
  - destruct (connected (w_out w)); cbn [negb] in Hturn.
    + destruct (RConn (w_out w)) as [conn|]; [|discriminate].
      rewrite Hfl in Hturn. cbn [negb] in Hturn.
      destruct a; injection Hturn as <- <-; cbn; auto 10.
    + injection Hturn as <- <-. cbn. auto 10.
  - destruct (w_ticker w) eqn:Ht; cbn [negb] in Hturn; [|discriminate].
    rewrite Hp in Hturn. cbn in Hturn. injection Hturn as <- <-.
    cbn. auto 10.
  - unfold Connect in Hturn.
    destruct (RedisConnect (w_out w) (Db (w_out w)) d) as [[c|e] t];
      injection Hturn as <- <-; cbn; auto 10.
Qed.

End WorkerDynamics.

(** X20: an outage and its end.  When the send of a message fails, the
    worker marks the connection unhealthy and starts a reconnect; every
    message received from then on is dropped without any effect; once a
    connect attempt has succeeded, the next message is delivered on the new
    connection.  In batched mode the counter has counted the failed send as
    well. *)
Theorem worker_outage_and_resume (w : Worker) (conn conn2 : Conn)
  (m m2 : RedisQueueMsg) (e : error)
  (dropped : list (RedisQueueMsg * option error)) (d : result Conn) :
  connected (w_out w) = true ->
  RConn (w_out w) = Some conn ->
  0 <= w_pending w ->
  w_pending w + 2 <= int64_max ->
  attempt (w_out w) d = Ok conn2 ->
  worker_run w
    ([QueueMsg m (Some e)] ++ map (fun '(x, a) => QueueMsg x a) dropped
     ++ [EnvConnect d; QueueMsg m2 None])
  = Continue
      (MkWorker (set_connected (set_Conn (w_out w) (Some conn2)) true)
         (if flush_immediatelly (w_out w) then w_pending w
          else w_pending w + 2)
         (w_ticker w))
      [delivery (w_out w) (conn_id conn) m; EGo GoReconnect;
       delivery (w_out w) (conn_id conn2) m2].
Proof.
  intros Hc Hconn H0 Hmax Hd.
  assert (Hw : wrap64 (w_pending w + 1) = w_pending w + 1).
  { apply wrap64_small. unfold in_int64, int64_min, int64_max in *. lia. }
  rewrite worker_run_app.
  cbn [worker_run worker_turn]. rewrite Hc, Hconn. cbn [negb].
  set (p1 := if flush_immediatelly (w_out w) then w_pending w
             else w_pending w + 1).
  assert (Hfirst :
    (let '(pending, eff) :=
       if negb (flush_immediatelly (w_out w))
       then (wrap64 (w_pending w + 1),
             ESend (conn_id conn) (worker_command (w_out w) m))
       else (w_pending w, EDo (conn_id conn) (worker_command (w_out w) m)) in
     Continue (MkWorker (set_connected (w_out w) false) pending (w_ticker w))
       [eff; EGo GoReconnect])
    = Continue (MkWorker (set_connected (w_out w) false) p1 (w_ticker w))
        [delivery (w_out w) (conn_id conn) m; EGo GoReconnect]).
  { unfold delivery. subst p1. rewrite Hw.
    now destruct (flush_immediatelly (w_out w)). }
  rewrite Hfirst. cbn [then_run]. rewrite worker_run_app.
  rewrite worker_run_dropped by reflexivity. cbn [then_run].
  cbn [worker_run worker_turn w_out].
  assert (Hconnect :
    Connect (set_connected (w_out w) false) d
    = (None, set_connected (set_Conn (w_out w) (Some conn2)) true,
       attempt_trace (w_out w) d)).
  { now rewrite (Connect_succeeds (set_connected (w_out w) false) d conn2). }
  rewrite Hconnect. cbn [set_w_out w_out w_pending w_ticker connected RConn
                         set_connected set_Conn negb flush_immediatelly].
  assert (Hw2 : wrap64 (p1 + 1) = p1 + 1).
  { apply wrap64_small. subst p1.
    unfold in_int64, int64_min, int64_max in *.
    destruct (flush_immediatelly (w_out w)); lia. }
  rewrite Hw2. unfold delivery. subst p1.
  destruct (flush_immediatelly (w_out w)); cbn [negb app]; [reflexivity|].
  replace (w_pending w + 1 + 1) with (w_pending w + 2) by lia. reflexivity.
Qed.

Lemma worker_outage_and_resume_witness :
  let w := MkWorker (initialised example_config) 0 true in
  let dropped := [(example_msg "e2", None); (example_msg "e3", None)] in
  connected (w_out w) = true
  /\ RConn (w_out w) = Some (good_conn 1)
  /\ 0 <= w_pending w
  /\ w_pending w + 2 <= int64_max
  /\ attempt (w_out w) (Ok (good_conn 2)) = Ok (good_conn 2)
  /\ worker_run w
       ([QueueMsg (example_msg "e1") (Some "EOF")]
        ++ map (fun '(x, a) => QueueMsg x a) dropped
        ++ [EnvConnect (Ok (good_conn 2)); QueueMsg (example_msg "e4") None])
     = Continue
         (MkWorker
            (set_connected (set_Conn (w_out w) (Some (good_conn 2))) true)
            2 true)
         [ESend 1 (RPUSH "packetbeat" "e1"); EGo GoReconnect;
          ESend 2 (RPUSH "packetbeat" "e4")].
Proof.
  intros w dropped.
  assert (H0 : 0 <= w_pending w) by (vm_compute; congruence).
  assert (H1 : w_pending w + 2 <= int64_max) by (vm_compute; congruence).
  split; [reflexivity|]. split; [reflexivity|]. split; [exact H0|].
  split; [exact H1|]. split; [reflexivity|].
  exact (worker_outage_and_resume w (good_conn 1) (good_conn 2)
           (example_msg "e1") (example_msg "e4") "EOF" dropped
           (Ok (good_conn 2)) eq_refl eq_refl H0 H1 eq_refl).
Defined.

(** X21: a connect attempt that fails while the connection is marked
    healthy stores the nil connection and leaves the mark; the worker's
    next use of the connection, for a message or for a flush of pending
    sends, is a call on nil and panics. *)
Theorem worker_panics_on_nil_connection (w : Worker) (d : result Conn)
  (m : RedisQueueMsg) (a : option error) :
  connected (w_out w) = true ->
  attempt_fails (w_out w) d ->
  worker_run w [EnvConnect d; QueueMsg m a] = Panic []
  /\ (w_ticker w = true -> 0 < w_pending w ->
      worker_run w [EnvConnect d; FlushTick a] = Panic []).
Proof.
  intros Hc Hd. destruct (Connect_fails _ _ Hd) as [e He].
  split.
  - cbn [worker_run worker_turn]. rewrite He.
    cbn [set_w_out w_out connected set_Conn RConn]. rewrite Hc. reflexivity.
  - intros Ht Hp. cbn [worker_run worker_turn]. rewrite He.
    cbn [set_w_out w_out w_ticker w_pending connected set_Conn RConn].
    rewrite Ht. apply Z.ltb_lt in Hp. rewrite Hp. reflexivity.
Qed.

Lemma worker_panics_on_nil_connection_witness :
  let w := one_pending in
  connected (w_out w) = true
  /\ attempt_fails (w_out w) (Fail "connection refused")
  /\ worker_run w [EnvConnect (Fail "connection refused");
                   QueueMsg (example_msg "e2") None] = Panic []
  /\ (w_ticker w = true -> 0 < w_pending w ->
      worker_run w [EnvConnect (Fail "connection refused"); FlushTick None]
      = Panic []).
Proof.
  intros w. split; [reflexivity|]. split; [reflexivity|].
  exact (worker_panics_on_nil_connection w (Fail "connection refused")
           (example_msg "e2") None eq_refl eq_refl).
Defined.

(** X22: when flushing on each push is selected the worker never pipelines:
    whatever it receives, it issues no send, no flush and no read of an
    acknowledgement, and its counter stays zero. *)
Theorem immediate_mode_never_pipelines (evs : list Event) (w w' : Worker)
  (tr : trace) :
  flush_immediatelly (w_out w) = true ->
  w_pending w = 0 ->
  worker_run w evs = Continue w' tr ->
  w_pending w' = 0
  /\ flush_immediatelly (w_out w') = true
  /\ count_eff is_send tr = 0%nat
  /\ count_eff is_flush tr = 0%nat
  /\ count_eff is_receive tr = 0%nat.
Proof.
  revert w tr. induction evs as [|ev evs IH]; intros w tr Hfl Hp Hrun.
  - injection Hrun as <- <-. auto 10.
  - cbn [worker_run] in Hrun.
    destruct (worker_turn w ev) as [w1 tr1| |] eqn:Hturn; try discriminate.
    destruct (worker_turn_immediate w w1 ev tr1 Hfl Hp Hturn)
      as (Hfl1 & Hp1 & _ & Hs1 & Hf1 & Hr1).
    destruct (worker_run w1 evs) as [w2 tr2| |] eqn:Hrest; try discriminate.
    injection Hrun as <- <-.
    destruct (IH w1 tr2 Hfl1 Hp1 Hrest) as (Hp2 & Hfl2 & Hs2 & Hf2 & Hr2).
    rewrite !count_eff_app, Hs1, Hs2, Hf1, Hf2, Hr1, Hr2. auto 10.
Qed.

Lemma immediate_mode_never_pipelines_witness :
  let out := initialised (with_FlushInterval example_config (Some (-1))) in
  let w := MkWorker out 0 false in
  let evs := [QueueMsg (example_msg "e1") None;
              QueueMsg (example_msg "e2") (Some "EOF");
              QueueMsg (example_msg "e3") None;
              EnvConnect (Ok (good_conn 2));
              QueueMsg (example_msg "e4") None] in
  let w' := MkWorker (set_connected (set_Conn out (Some (good_conn 2))) true)
              0 false in
  let tr := [EDo 1 (RPUSH "packetbeat" "e1"); EDo 1 (RPUSH "packetbeat" "e2");
             EGo GoReconnect; EDo 2 (RPUSH "packetbeat" "e4")] in
  flush_immediatelly (w_out w) = true
  /\ w_pending w = 0
  /\ worker_run w evs = Continue w' tr
  /\ w_pending w' = 0
  /\ flush_immediatelly (w_out w') = true
  /\ count_eff is_send tr = 0%nat
  /\ count_eff is_flush tr = 0%nat
  /\ count_eff is_receive tr = 0%nat.
Proof.
  intros out w evs w' tr.
  split; [reflexivity|]. split; [reflexivity|]. split; [reflexivity|].
  exact (immediate_mode_never_pipelines evs w w' tr eq_refl eq_refl eq_refl).
Defined.

(** X23: the counter is the number of sends since the last flush: after any
    run of the worker that does not overflow it, the counter is what one
    gets by counting the sends of the trace and starting again from zero at
    every flush. *)
Theorem pending_counts_sends_since_flush (evs : list Event) (w w' : Worker)
  (tr : trace) :
  0 <= w_pending w ->
  w_pending w + Z.of_nat (length evs) <= int64_max ->
  worker_run w evs = Continue w' tr ->
  w_pending w' = Z.of_nat (sends_since_flush (Z.to_nat (w_pending w)) tr)
  /\ 0 <= w_pending w' <= w_pending w + Z.of_nat (length evs).
Proof.
  revert w tr. induction evs as [|ev evs IH]; intros w tr H0 Hmax Hrun.
  - injection Hrun as <- <-. cbn. lia.
  - cbn [worker_run] in Hrun. cbn [length] in Hmax.
    destruct (worker_turn w ev) as [w1 tr1| |] eqn:Hturn; try discriminate.
    destruct (worker_turn_pending w w1 ev tr1 Hturn ltac:(lia))
      as [Hp1 Hb1].
    destruct (worker_run w1 evs) as [w2 tr2| |] eqn:Hrest; try discriminate.
    injection Hrun as <- <-.
    destruct (IH w1 tr2 ltac:(lia) ltac:(lia) Hrest) as [Hp2 Hb2].
    rewrite sends_since_flush_app. split; [|cbn [length]; lia].
    rewrite Hp2. do 2 f_equal. rewrite Hp1. apply Nat2Z.id.
Qed.

Lemma pending_counts_sends_since_flush_witness :
  let out := initialised example_config in
  let w := MkWorker out 0 true in
  let evs := [QueueMsg (example_msg "e1") None; FlushTick None;
              QueueMsg (example_msg "e2") None;
              QueueMsg (example_msg "e3") None] in
  let tr := [ESend 1 (RPUSH "packetbeat" "e1"); EFlush 1; EReceive 1;
             ESend 1 (RPUSH "packetbeat" "e2");
             ESend 1 (RPUSH "packetbeat" "e3")] in
  0 <= w_pending w
  /\ w_pending w + Z.of_nat (length evs) <= int64_max
  /\ worker_run w evs = Continue (MkWorker out 2 true) tr
  /\ 2 = Z.of_nat (sends_since_flush (Z.to_nat (w_pending w)) tr)
  /\ 0 <= 2 <= w_pending w + Z.of_nat (length evs).
Proof.
  intros out w evs tr.
  assert (H0 : 0 <= w_pending w) by (vm_compute; congruence).
  assert (H1 : w_pending w + Z.of_nat (length evs) <= int64_max)
    by (vm_compute; congruence).
  split; [exact H0|]. split; [exact H1|]. split; [reflexivity|].
  exact (pending_counts_sends_since_flush evs w (MkWorker out 2 true) tr H0
           H1 eq_refl).
Defined.

(** ** Refresh against any connection; publishing and reading back *)

Section RefreshAny.

Variable conn : Conn.




End RefreshAny.

Section SplitJoin.

Lemma split_on_free (s : string) :
  comma_free s -> split_on comma s = [s].
Proof.
  unfold comma_free. induction s as [|a s IH]; [reflexivity|].
  simpl. intros H. apply orb_false_iff in H as [Ha Hs].
  rewrite Ha, (IH Hs). reflexivity.
Qed.

Lemma split_on_append (s t : string) :
  comma_free s ->
  split_on comma (String.append s (String comma t)) = s :: split_on comma t.
Proof.
  unfold comma_free. induction s as [|a s IH]; intros H.
  - reflexivity.
  - simpl in H. apply orb_false_iff in H as [Ha Hs].
    simpl. rewrite Ha. simpl in IH. rewrite (IH Hs). reflexivity.
Qed.

Lemma split_join (l : list string) :
  l <> [] -> Forall comma_free l ->
  strings_Split_comma (strings_Join_comma l) = l.
Proof.
  unfold strings_Split_comma, strings_Join_comma.
  induction l as [|x l IH]; [congruence|]. intros _ Hall.
  apply Forall_cons in Hall as [Hx Hall].
  destruct l as [|y l].
  - cbn [String.concat]. now apply split_on_free.
  - cbn [String.concat] in *.
    change (String.append "," ?t) with (String comma t).
    rewrite split_on_append by exact Hx.
    f_equal. now apply IH.
Qed.

End SplitJoin.





(** X26: splitting at the commas what was joined with commas gives the
    list back, provided the list is not empty and no element holds a comma;
    the empty list is joined to the empty string, which splits into the
    one empty field. *)
Theorem split_join_round_trip (l : list string) :
  Forall comma_free l ->
  (l <> [] -> strings_Split_comma (strings_Join_comma l) = l)
  /\ strings_Split_comma (strings_Join_comma []) = [""].
Proof.
  intros Hall. split; [|reflexivity]. intros Hne. now apply split_join.
Qed.

Lemma split_join_round_trip_witness :
  Forall comma_free ["10.0.0.1"; "10.0.0.2"]
  /\ (["10.0.0.1"; "10.0.0.2"] <> [] ->
      strings_Split_comma (strings_Join_comma ["10.0.0.1"; "10.0.0.2"])
      = ["10.0.0.1"; "10.0.0.2"])
  /\ strings_Split_comma (strings_Join_comma []) = [""].
Proof.
  assert (H : Forall comma_free ["10.0.0.1"; "10.0.0.2"])
    by (repeat constructor).
  split; [exact H|].
  exact (split_join_round_trip ["10.0.0.1"; "10.0.0.2"] H).
Defined.



(** ** GeoIP data, output names and the file output *)

Section GeoIP.

Variable fs : FileSystem.

Lemma geoip_scan_missing (missing rest : list string) :
  Forall (fun q => fs_Lstat fs q = None) missing ->
  geoip_scan fs (missing ++ rest)
  = (fst (geoip_scan fs rest),
     map OpLstat missing ++ snd (geoip_scan fs rest)).
Proof.
  induction missing as [|q missing IH]; intros Hall.
  - cbn [app map]. now destruct (geoip_scan fs rest).
  - apply Forall_cons in Hall as [Hq Hall].
    cbn [app geoip_scan]. rewrite Hq, (IH Hall). reflexivity.
Qed.

End GeoIP.

(** X28: [LoadGeoIPData] takes the paths of the configuration, or the
    package variable when the configuration has none, and leaves them in
    the package variable, so a later call without paths does the same
    again.  If no path can be stat'ed, each is tried once, in order, and
    the result is nil without any load.  Otherwise the paths before the
    first one that can be stat'ed are skipped and those after it are never
    looked at: if it is a symlink that cannot be resolved the result is
    nil, else the data is loaded from it, or from what it resolves to, and
    what the library returns is the result even if loading reports an
    error. *)
Theorem LoadGeoIPData_first_existing (geoipPaths : list string)
  (config_Paths : option (list string)) (fs : FileSystem) :
  let paths := match config_Paths with
               | Some ps => ps
               | None => geoipPaths
               end in
  let db := fst (fst (LoadGeoIPData geoipPaths config_Paths fs)) in
  let paths' := snd (fst (LoadGeoIPData geoipPaths config_Paths fs)) in
  let ops := snd (LoadGeoIPData geoipPaths config_Paths fs) in
  paths' = paths
  /\ LoadGeoIPData paths' None fs = (db, paths', ops)
  /\ (Forall (fun q => fs_Lstat fs q = None) paths ->
      db = None /\ ops = map OpLstat paths)
  /\ (forall missing p later symlink,
        paths = missing ++ p :: later ->
        Forall (fun q => fs_Lstat fs q = None) missing ->
        fs_Lstat fs p = Some symlink ->
        let looked := map OpLstat missing
                      ++ OpLstat p
                         :: (if symlink then [OpEvalSymlinks p] else []) in
        match (if symlink then fs_EvalSymlinks fs p else Ok p) with
        | Fail _ => db = None /\ ops = looked
        | Ok target =>
            if Nat.eqb (String.length target) 0
            then db = None /\ ops = looked
            else db = fst (geo_Load fs target)
                 /\ ops = looked ++ [OpLoad target]
        end).
Proof.
  intros paths db paths' ops.
  assert (Hshape : LoadGeoIPData geoipPaths config_Paths fs
                   = LoadGeoIPData paths None fs) by reflexivity.
  assert (Hpaths : paths' = paths).
  { subst paths' db ops. unfold LoadGeoIPData. fold paths.
    destruct (Nat.eqb (length paths) 0); [reflexivity|].
    destruct (geoip_scan fs paths) as [[g|] tr]; [|reflexivity].
    now destruct (Nat.eqb (String.length g) 0). }
  split; [exact Hpaths|]. split.
  { rewrite Hpaths. subst db paths' ops. rewrite Hshape in *.
    destruct (LoadGeoIPData paths None fs) as [[a b] c].
    cbn [fst snd] in *. now subst b. }
  subst db ops. clear Hpaths paths'. rewrite Hshape. unfold LoadGeoIPData.
  split.
  - intros Hall. destruct paths as [|q qs] eqn:Hp; [now split|].
    cbn [length Nat.eqb]. rewrite <- Hp in *.
    rewrite <- (app_nil_r paths) at 1 2.
    rewrite (geoip_scan_missing fs paths [] Hall). cbn.
    now rewrite app_nil_r.
  - intros missing p later symlink Hp Hmiss Hstat.
    rewrite Hp.
    replace (Nat.eqb (length (missing ++ p :: later)) 0) with false
      by (rewrite length_app; cbn [length];
          symmetry; apply Nat.eqb_neq; lia).
    rewrite (geoip_scan_missing fs missing (p :: later) Hmiss).
    cbn [geoip_scan]. rewrite Hstat.
    destruct symlink.
    + destruct (fs_EvalSymlinks fs p) as [target|e]; cbn [fst snd].
      * destruct (Nat.eqb (String.length target) 0); cbn [fst snd];
          split; try reflexivity; now rewrite <- app_assoc.
      * now split.
    + cbn [fst snd].
      destruct (Nat.eqb (String.length p) 0); cbn [fst snd];
        split; try reflexivity; now rewrite <- app_assoc.
Qed.

Example LoadGeoIPData_example :
  let fs := MkFileSystem
              (fun p => if String.eqb p "/usr/local/var/GeoIP/GeoIP.dat"
                        then Some true else None)
              (fun p => Ok "/opt/geo/GeoIP.dat")
              (fun p => (Some "db", None)) in
  LoadGeoIPData default_geoipPaths None fs
  = (Some "db", default_geoipPaths,
     [OpLstat "/usr/share/GeoIP/GeoIP.dat";
      OpLstat "/usr/local/var/GeoIP/GeoIP.dat";
      OpEvalSymlinks "/usr/local/var/GeoIP/GeoIP.dat";
      OpLoad "/opt/geo/GeoIP.dat"])
  /\ LoadGeoIPData default_geoipPaths (Some []) fs = (None, [], [])
  /\ LoadGeoIPData [] None fs = (None, [], []).
Proof. repeat split. Qed.

(** X29: [String] never indexes [OutputNames] out of range: every
    identifier has a name; the name is "impossible" exactly for the
    identifiers from 4 on, and the four identifiers below have four
    different names. *)
Theorem OutputPlugin_String_total (o o' : Z) :
  0 <= o -> 0 <= o' ->
  (exists s, OutputPlugin_String o = Some s)
  /\ (OutputPlugin_String o = Some "impossible" <-> 4 <= o)
  /\ (o < 4 -> o' < 4 -> OutputPlugin_String o = OutputPlugin_String o' ->
      o = o').
Proof.
  intros Ho Ho'.
  assert (Hcase : forall x, 0 <= x ->
            x = 0 \/ x = 1 \/ x = 2 \/ x = 3 \/ 4 <= x) by (intros; lia).
  assert (Hbig : forall x, 4 <= x -> OutputPlugin_String x = Some "impossible").
  { intros x Hx. unfold OutputPlugin_String. cbn [length OutputNames].
    destruct (Z.leb_spec (Z.of_nat 4) x) as [_|Hlt]; [reflexivity|lia]. }
  split; [|split].
  - destruct (Hcase o Ho) as [->|[->|[->|[->|H4]]]]; eauto.
  - split.
    + intros H. destruct (Hcase o Ho) as [->|[->|[->|[->|H4]]]];
        try discriminate H. exact H4.
    + apply Hbig.
  - intros H4 H4' Heq.
    destruct (Hcase o Ho) as [->|[->|[->|[->|?]]]]; [| | | |lia];
      (destruct (Hcase o' Ho') as [->|[->|[->|[->|?]]]]; [| | | |lia]);
      try reflexivity; discriminate Heq.
Qed.

Lemma OutputPlugin_String_total_witness :
  0 <= 1 /\ 0 <= 3
  /\ (exists s, OutputPlugin_String 1 = Some s)
  /\ (OutputPlugin_String 1 = Some "impossible" <-> 4 <= 1)
  /\ (1 < 4 -> 3 < 4 -> OutputPlugin_String 1 = OutputPlugin_String 3 ->
      1 = 3).
Proof.
  assert (H1 : 0 <= 1) by lia. assert (H3 : 0 <= 3) by lia.
  split; [exact H1|]. split; [exact H3|].
  exact (OutputPlugin_String_total 1 3 H1 H3).
Defined.

Example OutputPlugin_String_examples :
  OutputPlugin_String 0 = Some "unknown"
  /\ OutputPlugin_String 1 = Some "redis"
  /\ OutputPlugin_String 2 = Some "elasticsearch"
  /\ OutputPlugin_String 3 = Some "file"
  /\ OutputPlugin_String 65535 = Some "impossible".
Proof. repeat split. Qed.

(** X30: the file output's [Init] never leaves a zero in the rotator: the
    rotation size is the configured number of kilobytes times 1024 taken
    as a 64-bit unsigned number, or 10 MiB when that is zero (as it is for
    0 and for 2^54 kilobytes), so it lies strictly between 0 and 2^64; the
    number of files is the configured one, or 7 when that is zero; the
    name is the configured one, or "packetbeat" when that is empty.  The
    directory is created first, and a failure of that is returned without
    the configuration being checked. *)
Theorem FileOutput_Init_fills_defaults (config : Config)
  (create_directory check_sane : FileRotator -> option error) :
  let err := fst (fst (FileOutput_Init config create_directory check_sane)) in
  let rot := snd (fst (FileOutput_Init config create_directory check_sane)) in
  let ops := snd (FileOutput_Init config create_directory check_sane) in
  let bytes := (cfg_RotateEveryKb config * 1024) mod 2 ^ 64 in
  rot_RotateEveryBytes rot
  = Some (if bytes =? 0 then 10485760 else bytes)
  /\ (exists r, rot_RotateEveryBytes rot = Some r /\ 0 < r < 2 ^ 64)
  /\ (exists k, rot_KeepFiles rot = Some k /\ k <> 0
                /\ (cfg_NumberOfFiles config <> 0 ->
                    k = cfg_NumberOfFiles config)
                /\ (cfg_NumberOfFiles config = 0 -> k = 7))
  /\ rot_Name rot <> ""
  /\ rot_Path rot = cfg_Path config
  /\ match create_directory rot with
     | Some e => err = Some e /\ ops = [OpCreateDirectory rot]
     | None =>
         err = check_sane rot
         /\ ops = [OpCreateDirectory rot; OpCheckIfConfigSane rot]
     end.
Proof.
  intros err rot ops bytes.
  assert (Hkb : kb_to_bytes (cfg_RotateEveryKb config) = bytes).
  { unfold kb_to_bytes, wrapu. subst bytes.
    now rewrite Z.mul_mod_idemp_l by lia. }
  assert (Hrange : 0 <= bytes < 2 ^ 64)
    by (subst bytes; apply Z.mod_pos_bound; lia).
  set (rotator :=
         MkFileRotator (cfg_Path config)
           (if String.eqb (cfg_Filename config) "" then "packetbeat"
            else cfg_Filename config)
           (Some (if bytes =? 0 then 10485760 else bytes))
           (Some (if cfg_NumberOfFiles config =? 0 then 7
                  else cfg_NumberOfFiles config))).
  assert (Hinit : FileOutput_Init config create_directory check_sane
                  = match create_directory rotator with
                    | Some e => (Some e, rotator, [OpCreateDirectory rotator])
                    | None =>
                        (check_sane rotator, rotator,
                         [OpCreateDirectory rotator;
                          OpCheckIfConfigSane rotator])
                    end).
  { unfold FileOutput_Init. rewrite Hkb.
    change (10 * 1024 * 1024) with 10485760. fold rotator.
    destruct (create_directory rotator); [reflexivity|].
    now destruct (check_sane rotator). }
  assert (Hrot : rot = rotator).
  { subst rot. rewrite Hinit. now destruct (create_directory rotator). }
  subst err ops. rewrite Hrot. clear Hrot rot. rewrite Hinit.
  split; [reflexivity|]. split; [|split; [|split; [|split]]].
  - eexists. split; [reflexivity|].
    destruct (Z.eqb_spec bytes 0); [|lia].
    change (2 ^ 64) with 18446744073709551616. lia.
  - eexists. split; [reflexivity|].
    destruct (Z.eqb_spec (cfg_NumberOfFiles config) 0); lia.
  - cbn [rot_Name rotator].
    destruct (String.eqb_spec (cfg_Filename config) ""); [discriminate|].
    assumption.
  - reflexivity.
  - destruct (create_directory rotator); now split.
Qed.

Example FileOutput_Init_examples :
  let ok : FileRotator -> option error := fun _ => None in
  let init kb :=
    rot_RotateEveryBytes
      (snd (fst (FileOutput_Init
                   {| cfg_Enabled := true; cfg_SaveTopology := false;
                      cfg_Host := ""; cfg_Port := 0; cfg_Hosts := [];
                      cfg_Protocol := ""; cfg_Username := "";
                      cfg_Password := ""; cfg_Index := "";
                      cfg_Path := "/var/log"; cfg_Db := 0;
                      cfg_DbTopology := 0; cfg_Timeout := 0;
                      cfg_ReconnectInterval := 0; cfg_Filename := "";
                      cfg_RotateEveryKb := kb; cfg_NumberOfFiles := 0;
                      cfg_DataType := ""; cfg_FlushInterval := None;
                      cfg_BulkSize := None; cfg_MaxRetries := None |}
                   ok ok))) in
  init 0 = Some 10485760
  /\ init 1 = Some 1024
  /\ init (2 ^ 54) = Some 10485760
  /\ init (-1) = Some 18446744073709550592.
Proof. repeat split. Qed.
